(** * ijson, YAJL backend: a shallow embedding of [ijson/backends/yajl.py]

    The module drives the YAJL recogniser (a C library reached through
    ctypes) over chunks read from a file-like object and turns the tokens
    it reports into a lazy sequence of [(event, value)] pairs.

    The module is Python 2 code (its docstring tells [<unicode>] from
    [<str>], and [Decimal] is given a byte string); the builtins are
    modelled as Python 2.7 has them.

    Layout of the development:
    - Python values, exceptions and the builtins the converters call
      ([int], [Decimal], [bytes.decode('utf-8')], [bool], [string_at]);
    - [number], [_callback_data] and the callback closures;
    - the recogniser and the file-like object as interfaces, and the
      generator [basic_parse] as a function from the consumer's behaviour
      to the run it observes: the calls into the recogniser and the
      yields, in order, and the way the run ends;
    - a byte-at-a-time recogniser for a fragment of JSON, organised like
      YAJL 1.x, used to run the generator on concrete inputs;
    - the properties. *)

From Stdlib Require Import String.
From Stdlib Require Import List ZArith Bool Lia.
From Stdlib.Strings Require Import Byte.
Import ListNotations.
Local Open Scope Z_scope.

Set Implicit Arguments.

(* ================================================================= *)
(** ** Python values and exceptions *)

Definition bytes := list byte.

Definition ord (b : byte) : Z := Z.of_N (Byte.to_N b).

(** The exceptions that the module raises, that its converters can run
    into, or that reading the input can raise. [JSONError] carries the
    recogniser's diagnostic text. *)
Inductive pyexn : Type :=
| ValueError
| TypeError
| UnicodeDecodeError
| InvalidOperation
| IOError
| JSONError (error : bytes)
| IncompleteJSONError.

Inductive pyresult (A : Type) : Type :=
| Returns (a : A)
| Raises (x : pyexn).
Arguments Returns {A} a.
Arguments Raises {A} x.

(** [decimal.Decimal]: sign, coefficient and exponent, or a special
    value. *)
Inductive Decimal : Type :=
| DecFinite (negative : bool) (coefficient : Z) (exponent : Z)
| DecInfinity (negative : bool)
| DecNaN (negative signaling : bool) (payload : Z).

(** A [float] is kept as the exact decimal it was read from; it stands
    for the binary64 number nearest to it (rounding is not modelled). *)
Inductive pyvalue : Type :=
| PyNone
| PyBool (b : bool)
| PyInt (n : Z)
| PyFloat (nearest : Decimal)
| PyDecimal (d : Decimal)
| PyUnicode (code_points : list Z)
| PyStr (raw : bytes).

Definition Event : Type := string * pyvalue.

(** What ctypes hands to a Python callback for one C argument:
    an integer ([c_int], [c_long], [c_uint]), a [c_double] given by its
    64-bit pattern, or a [POINTER(c_ubyte)] given by the memory that
    starts at its address. *)
Inductive cval : Type :=
| CInt (n : Z)
| CDouble (bits : Z)
| CPointer (mem : bytes).

(* ================================================================= *)
(** ** Builtins used by the converters *)

(** [bool(v)]. *)
Definition py_bool (v : cval) : bool :=
  match v with
  | CInt n => negb (n =? 0)
  | CDouble bits => negb (Z.land bits (Z.ones 63) =? 0)
  | CPointer _ => true
  end.

(** [ctypes.string_at(v, l)]: the [l] bytes at address [v]. *)
Definition string_at (v l : cval) : pyresult bytes :=
  match v, l with
  | CPointer mem, CInt n => Returns (firstn (Z.to_nat n) mem)
  | _, _ => Raises TypeError
  end.

(** Whitespace removed by [int] and [Decimal] around their argument. *)
Definition is_space (b : byte) : bool :=
  match b with
  | x20 | x09 | x0a | x0b | x0c | x0d => true
  | _ => false
  end.

Fixpoint lstrip (s : bytes) : bytes :=
  match s with
  | b :: r => if is_space b then lstrip r else s
  | [] => []
  end.

Definition strip (s : bytes) : bytes := rev (lstrip (rev (lstrip s))).

Definition digit_of (b : byte) : option Z :=
  let n := ord b in
  if (48 <=? n) && (n <=? 57) then Some (n - 48) else None.

(** Horner evaluation of a run of decimal digits; [None] when a byte is
    not a digit. *)
Fixpoint digits_value (acc : Z) (s : bytes) : option Z :=
  match s with
  | [] => Some acc
  | b :: r =>
      match digit_of b with
      | Some d => digits_value (10 * acc + d) r
      | None => None
      end
  end.

Definition unsigned_int (s : bytes) : option Z :=
  match s with
  | [] => None
  | _ :: _ => digits_value 0 s
  end.

(** [int(value)] in base ten on a byte string: surrounding whitespace,
    an optional sign, then one or more digits; anything else is a
    [ValueError]. Python integers are unbounded, so is [Z]. *)
Definition py_int (value : bytes) : pyresult Z :=
  let body := strip value in
  let signed :=
    match body with
    | x2d :: ds => option_map Z.opp (unsigned_int ds)
    | x2b :: ds => unsigned_int ds
    | _ => unsigned_int body
    end in
  match signed with
  | Some n => Returns n
  | None => Raises ValueError
  end.

(** The longest prefix of digits and what follows it. *)
Fixpoint span_digits (s : bytes) : bytes * bytes :=
  match s with
  | b :: r =>
      match digit_of b with
      | Some _ => let (ds, rest) := span_digits r in (b :: ds, rest)
      | None => ([], s)
      end
  | [] => ([], [])
  end.

Definition lower (b : byte) : byte :=
  let n := ord b in
  if (65 <=? n) && (n <=? 90)
  then match Byte.of_N (Z.to_N (n + 32)) with Some c => c | None => b end
  else b.

Definition bytes_eqb (a b : bytes) : bool :=
  if list_eq_dec Byte.byte_eq_dec a b then true else false.

Definition digits_or_zero (s : bytes) : option Z :=
  match s with [] => Some 0 | _ => digits_value 0 s end.

(** [exponent-part ::= indicator [sign] digits]; the empty string is
    exponent zero. *)
Definition exponent_part (s : bytes) : option Z :=
  match s with
  | [] => Some 0
  | e :: r =>
      if bytes_eqb [lower e] [x65] then
        match r with
        | x2d :: ds => option_map Z.opp (unsigned_int ds)
        | x2b :: ds => unsigned_int ds
        | _ => unsigned_int r
        end
      else None
  end.

(** [decimal-part [exponent-part]] of the numeric-string grammar. *)
Definition finite_decimal (negative : bool) (s : bytes) : option Decimal :=
  let (ip, rest) := span_digits s in
  let '(fp, rest') :=
    match rest with
    | x2e :: r => span_digits r
    | _ => ([], rest)
    end in
  match ip ++ fp with
  | [] => None
  | all =>
      match digits_value 0 all, exponent_part rest' with
      | Some c, Some e => Some (DecFinite negative c (e - Z.of_nat (length fp)))
      | _, _ => None
      end
  end.

Definition special_decimal (negative : bool) (s : bytes) : option Decimal :=
  let l := map lower s in
  if bytes_eqb l [x69; x6e; x66] then Some (DecInfinity negative)
  else if bytes_eqb l [x69; x6e; x66; x69; x6e; x69; x74; x79]
  then Some (DecInfinity negative)
  else match l with
       | x6e :: x61 :: x6e :: p =>
           option_map (DecNaN negative false) (digits_or_zero p)
       | x73 :: x6e :: x61 :: x6e :: p =>
           option_map (DecNaN negative true) (digits_or_zero p)
       | _ => None
       end.

(** [Decimal(value)] on a byte string, after the numeric-string grammar
    of the [decimal] module; [InvalidOperation] on anything else. *)
Definition py_Decimal (value : bytes) : pyresult Decimal :=
  let body := strip value in
  let (negative, rest) :=
    match body with
    | x2d :: r => (true, r)
    | x2b :: r => (false, r)
    | _ => (false, body)
    end in
  match finite_decimal negative rest with
  | Some d => Returns d
  | None =>
      match special_decimal negative rest with
      | Some d => Returns d
      | None => Raises InvalidOperation
      end
  end.

(** [float(value)] on a byte string accepts the same lexemes. *)
Definition py_float (value : bytes) : pyresult pyvalue :=
  match py_Decimal value with
  | Returns d => Returns (PyFloat d)
  | Raises _ => Raises ValueError
  end.

(** *** UTF-8 *)

Definition continuation (c : Z) : bool := (128 <=? c) && (c <=? 191).

(** [value.decode('utf-8')] with strict error handling, as the codec
    of Python 2.7 has it: the shortest form only and nothing above
    U+10FFFF; a surrogate written on three bytes (ED A0..BF and a
    continuation byte) is decoded to that surrogate, not rejected. *)
Fixpoint utf8_decode (s : bytes) : option (list Z) :=
  match s with
  | [] => Some []
  | b0 :: r0 =>
      let c0 := ord b0 in
      if c0 <? 128 then option_map (cons c0) (utf8_decode r0)
      else if (194 <=? c0) && (c0 <=? 223) then
        match r0 with
        | b1 :: r1 =>
            let c1 := ord b1 in
            if continuation c1
            then option_map (cons ((c0 - 192) * 64 + (c1 - 128)))
                            (utf8_decode r1)
            else None
        | _ => None
        end
      else if (224 <=? c0) && (c0 <=? 239) then
        match r0 with
        | b1 :: b2 :: r2 =>
            let c1 := ord b1 in
            let c2 := ord b2 in
            if continuation c1 && continuation c2
               && (negb (c0 =? 224) || (160 <=? c1))
            then option_map
                   (cons ((c0 - 224) * 4096 + (c1 - 128) * 64 + (c2 - 128)))
                   (utf8_decode r2)
            else None
        | _ => None
        end
      else if (240 <=? c0) && (c0 <=? 244) then
        match r0 with
        | b1 :: b2 :: b3 :: r3 =>
            let c1 := ord b1 in
            let c2 := ord b2 in
            let c3 := ord b3 in
            if continuation c1 && continuation c2 && continuation c3
               && (negb (c0 =? 240) || (144 <=? c1))
               && (negb (c0 =? 244) || (c1 <=? 143))
            then option_map
                   (cons ((c0 - 240) * 262144 + (c1 - 128) * 4096
                          + (c2 - 128) * 64 + (c3 - 128)))
                   (utf8_decode r3)
            else None
        | _ => None
        end
      else None
  end.

Definition valid_utf8 (s : bytes) : bool :=
  match utf8_decode s with Some _ => true | None => false end.

Definition decode_utf8 (s : bytes) : pyresult pyvalue :=
  match utf8_decode s with
  | Some text => Returns (PyUnicode text)
  | None => Raises UnicodeDecodeError
  end.

(* ================================================================= *)
(** ** [number] and [_callback_data] *)

(** [[
def number(value):
    try:
        return int(value)
    except ValueError:
        return Decimal(value)
]] *)
Definition number (value : bytes) : pyresult pyvalue :=
  match py_int value with
  | Returns n => Returns (PyInt n)
  | Raises ValueError =>
      match py_Decimal value with
      | Returns d => Returns (PyDecimal d)
      | Raises x => Raises x
      end
  | Raises x => Raises x
  end.

(** The ctypes prototypes [C_EMPTY] ... [C_STR]. Each takes the context
    pointer first; [proto_args] is what follows it. *)
Inductive cfunctype : Type := C_EMPTY | C_INT | C_LONG | C_DOUBLE | C_STR.

(** Calling a Python lambda of a given arity with [*args]: the wrong
    number of arguments is a [TypeError]. *)
Definition lambda0 (body : pyresult pyvalue) (args : list cval)
  : pyresult pyvalue :=
  match args with
  | [] => body
  | _ => Raises TypeError
  end.

Definition lambda1 (body : cval -> pyresult pyvalue) (args : list cval)
  : pyresult pyvalue :=
  match args with
  | [v] => body v
  | _ => Raises TypeError
  end.

Definition lambda2 (body : cval -> cval -> pyresult pyvalue)
  (args : list cval) : pyresult pyvalue :=
  match args with
  | [v; l] => body v l
  | _ => Raises TypeError
  end.

Definition bind {A B : Type} (r : pyresult A) (k : A -> pyresult B)
  : pyresult B :=
  match r with
  | Returns a => k a
  | Raises x => Raises x
  end.

Definition converter : Type := list cval -> pyresult pyvalue.

(** The table, entry for entry and in the order of the source (which is
    the order of the fields of YAJL's callback structure). *)
Definition _callback_data : list (string * cfunctype * converter) :=
  [ ("null"%string, C_EMPTY, lambda0 (Returns PyNone));
    ("boolean"%string, C_INT, lambda1 (fun v => Returns (PyBool (py_bool v))));
    ("integer"%string, C_LONG,
       lambda2 (fun v l =>
         bind (string_at v l) (fun s =>
         bind (py_int s) (fun n => Returns (PyInt n)))));
    ("double"%string, C_DOUBLE,
       lambda2 (fun v l => bind (string_at v l) py_float));
    ("number"%string, C_STR,
       lambda2 (fun v l => bind (string_at v l) number));
    ("string"%string, C_STR,
       lambda2 (fun v l => bind (string_at v l) decode_utf8));
    ("start_map"%string, C_EMPTY, lambda0 (Returns PyNone));
    ("map_key"%string, C_STR,
       lambda2 (fun v l => bind (string_at v l) (fun s => Returns (PyStr s))));
    ("end_map"%string, C_EMPTY, lambda0 (Returns PyNone));
    ("start_array"%string, C_EMPTY, lambda0 (Returns PyNone));
    ("end_array"%string, C_EMPTY, lambda0 (Returns PyNone)) ].

(** The converter registered under an event name. *)
Fixpoint converter_of (event : string)
  (table : list (string * cfunctype * converter)) : option converter :=
  match table with
  | [] => None
  | (name, _, func) :: rest =>
      if String.eqb name event then Some func else converter_of event rest
  end.

(** The arguments a callback of a given prototype receives after the
    context pointer, for a token whose payload is [payload]. *)
Definition str_args (payload : bytes) : list cval :=
  [CPointer payload; CInt (Z.of_nat (length payload))].

(* ================================================================= *)
(** ** The callback closures *)

(** [[
    def callback(event, func_type, func):
        def c_callback(context, *args):
            events.append((event, func( *args)))
            return 1
        return func_type(c_callback)
]]
    [events] is the list shared by the closures and the generator; the
    closure takes it and gives it back. When [func] raises, the append
    and the [return 1] are not reached. *)
Definition c_callback (event : string) (func : converter)
  (events : list Event) (args : list cval) : pyresult (list Event * Z) :=
  match func args with
  | Returns v => Returns (events ++ [(event, v)], 1)
  | Raises x => Raises x
  end.

Record CFunc : Type := {
  prototype : cfunctype;
  pyfunc : list Event -> list cval -> pyresult (list Event * Z)
}.

Definition callback (data : string * cfunctype * converter) : CFunc :=
  let '(event, func_type, func) := data in
  {| prototype := func_type; pyfunc := c_callback event func |}.

(** The [Callbacks] structure the generator builds: one closure per
    entry of [_callback_data], in order. *)
Definition Callbacks : list CFunc := map callback _callback_data.

(** The fields of the structure, which YAJL calls through. *)
Inductive yajl_callback : Type :=
| yajl_null | yajl_boolean | yajl_integer | yajl_double | yajl_number
| yajl_string | yajl_start_map | yajl_map_key | yajl_end_map
| yajl_start_array | yajl_end_array.

Definition field_index (c : yajl_callback) : nat :=
  match c with
  | yajl_null => 0 | yajl_boolean => 1 | yajl_integer => 2
  | yajl_double => 3 | yajl_number => 4 | yajl_string => 5
  | yajl_start_map => 6 | yajl_map_key => 7 | yajl_end_map => 8
  | yajl_start_array => 9 | yajl_end_array => 10
  end%nat.

(** One call made by the recogniser while it consumes bytes: the field
    and the arguments after the context pointer. *)
Definition Invocation : Type := yajl_callback * list cval.

(** A call through the ctypes thunk. An exception raised by the Python
    function does not unwind into the C caller: ctypes reports it and
    returns to C, and the shared list is as the function left it. *)
Definition invoke (events : list Event) (call : Invocation) : list Event :=
  match nth_error Callbacks (field_index (fst call)) with
  | Some cb =>
      match pyfunc cb events (snd call) with
      | Returns (events', _) => events'
      | Raises _ => events
      end
  | None => events
  end.

Definition run_callbacks (events : list Event) (calls : list Invocation)
  : list Event :=
  fold_left invoke calls events.

(* ================================================================= *)
(** ** The recogniser and the input, as interfaces *)

Record Config : Type := {
  allowComments : Z;
  checkUTF8 : Z
}.

Definition YAJL_OK : Z := 0.
Definition YAJL_CANCELLED : Z := 1.
Definition YAJL_INSUFFICIENT_DATA : Z := 2.
Definition YAJL_ERROR : Z := 3.

(** The part of libyajl the module calls. A parse call returns the new
    state of the handle, the callbacks it made, in order, and its status.
    [yajl_get_error] is called with [verbose = 1] and the current
    buffer. [yajl_free] and [yajl_free_error] return nothing. *)
Class Recogniser : Type := {
  yajl_handle : Type;
  yajl_alloc : Config -> yajl_handle;
  yajl_parse : yajl_handle -> bytes -> yajl_handle * list Invocation * Z;
  yajl_parse_complete : yajl_handle -> yajl_handle * list Invocation * Z;
  yajl_get_error : yajl_handle -> bytes -> bytes
}.

(** A readable file-like object: [f.read(n)] returns a byte string and
    moves the object on, or raises. *)
Class FileLike : Type := {
  file : Type;
  read : file -> Z -> pyresult (bytes * file)
}.

(** An ordinary file, given by the bytes not yet read: [read(n)] gives
    up to [n] bytes, everything when [n] is negative. *)
Definition file_read (f : bytes) (n : Z) : bytes * bytes :=
  if n <? 0 then (f, [])
  else (firstn (Z.to_nat n) f, skipn (Z.to_nat n) f).

Definition pyfile_read (f : bytes) (n : Z) : pyresult (bytes * bytes) :=
  Returns (file_read f n).

#[export] Instance PyFile : FileLike := {| file := bytes; read := pyfile_read |}.

(* ================================================================= *)
(** ** The generator *)

(** What a run does, in order: calls into libyajl and yields. A parse
    call is logged with the events its callbacks built and its status. *)
Inductive FCall : Type :=
| Call_alloc (config : Config)
| Call_parse (buffer : bytes) (built : list Event) (result : Z)
| Call_parse_complete (built : list Event) (result : Z)
| Call_get_error (buffer : bytes)
| Call_free_error
| Call_free.

Inductive Obs : Type :=
| Foreign (c : FCall)
| Yield (e : Event).

(** How a run ends: the generator returns ([StopIteration]), raises, is
    closed by its consumer while suspended at a [yield] (or before it
    started), or is still running when the fuel is used up. *)
Inductive Outcome : Type :=
| Exhausted
| Raised (x : pyexn)
| Closed
| Running.

Definition Run : Type := list Obs * Outcome.

(** The consumer of the generator: it iterates to the end, or asks for
    [n] events and abandons the generator, which closes it (the
    [GeneratorExit] raised at the [yield] runs the [finally] block). *)
Inductive Consumer : Type :=
| Drain
| Take (n : nat).

(** [for event in events: yield event] against a consumer: the events
    that are yielded, and the consumer left after the loop ([None] when
    it closed the generator at one of these yields). *)
Definition for_yield (consumer : Consumer) (events : list Event)
  : list Event * option Consumer :=
  match consumer with
  | Drain => (events, Some Drain)
  | Take n =>
      if (List.length events <? n)%nat
      then (events, Some (Take (n - List.length events)))
      else (firstn n events, None)
  end.

Definition is_empty {A : Type} (l : list A) : bool :=
  match l with [] => true | _ => false end.

(** The log entry of the parse call made for [buffer]. *)
Definition parse_entry (buffer : bytes) (built : list Event) (result : Z)
  : FCall :=
  if is_empty buffer then Call_parse_complete built result
  else Call_parse buffer built result.

Section Generator.
Context {Y : Recogniser} {F : FileLike}.
Variable buf_size : Z.

(** The [while True] loop inside [try ... finally]; one unit of fuel
    per iteration. [events] is the shared list at the head of the loop.
[[
    while True:
        buffer = f.read(buf_size)
        if buffer:
            result = yajl.yajl_parse(handle, buffer, len(buffer))
        else:
            result = yajl.yajl_parse_complete(handle)
        if result == YAJL_ERROR:
            perror = yajl.yajl_get_error(handle, 1, buffer, len(buffer))
            error = cast(perror, c_char_p).value
            yajl.yajl_free_error(handle, perror)
            raise common.JSONError(error)
        if not buffer and not events:
            if result == YAJL_INSUFFICIENT_DATA:
                raise common.IncompleteJSONError()
            break
        for event in events:
            yield event
        events = []
]]
    Every way out of the loop goes through [finally: yajl.yajl_free(handle)],
    also an exception raised by [f.read]. *)
Fixpoint reader_loop (fuel : nat) (consumer : Consumer) (f : file)
  (handle : yajl_handle) (events : list Event) : Run :=
  match fuel with
  | O => ([], Running)
  | S fuel' =>
      match read f buf_size with
      | Raises x => ([Foreign Call_free], Raised x)
      | Returns (buffer, f') =>
          let '(handle', made, result) :=
            if is_empty buffer then yajl_parse_complete handle
            else yajl_parse handle buffer in
          let events := run_callbacks events made in
          let entry := parse_entry buffer (run_callbacks [] made) result in
          if result =? YAJL_ERROR then
            ([Foreign entry; Foreign (Call_get_error buffer);
              Foreign Call_free_error; Foreign Call_free],
             Raised (JSONError (yajl_get_error handle' buffer)))
          else if is_empty buffer && is_empty events then
            if result =? YAJL_INSUFFICIENT_DATA
            then ([Foreign entry; Foreign Call_free],
                  Raised IncompleteJSONError)
            else ([Foreign entry; Foreign Call_free], Exhausted)
          else
            match for_yield consumer events with
            | (ys, None) =>
                (Foreign entry :: map Yield ys ++ [Foreign Call_free], Closed)
            | (ys, Some consumer') =>
                let (rest, out) :=
                  reader_loop fuel' consumer' f' handle' [] in
                (Foreign entry :: map Yield ys ++ rest, out)
            end
      end
  end.

(** [basic_parse(f, allow_comments, check_utf8, buf_size)], run against
    a consumer. Nothing of the body runs before the first event is
    asked for. *)
Definition basic_parse (f : file) (allow_comments check_utf8 : bool)
  (consumer : Consumer) (fuel : nat) : Run :=
  match consumer with
  | Take O => ([], Closed)
  | _ =>
      let events := [] in
      let config := {| allowComments := Z.b2z allow_comments;
                       checkUTF8 := Z.b2z check_utf8 |} in
      let handle := yajl_alloc config in
      let (rest, out) := reader_loop fuel consumer f handle events in
      (Foreign (Call_alloc config) :: rest, out)
  end.
End Generator.

Definition default_buf_size : Z := 64 * 1024.

(** Projections of a run. *)
Fixpoint yielded (tr : list Obs) : list Event :=
  match tr with
  | [] => []
  | Yield e :: r => e :: yielded r
  | Foreign _ :: r => yielded r
  end.

Fixpoint calls (tr : list Obs) : list FCall :=
  match tr with
  | [] => []
  | Foreign c :: r => c :: calls r
  | Yield _ :: r => calls r
  end.

(** Events built by the callbacks during a call, and its status. *)
Definition built_by (c : FCall) : list Event :=
  match c with
  | Call_parse _ built _ | Call_parse_complete built _ => built
  | _ => []
  end.

Definition status_of (c : FCall) : option Z :=
  match c with
  | Call_parse _ _ result | Call_parse_complete _ result => Some result
  | _ => None
  end.

(** All the events the callbacks built during a run, in the order the
    callbacks were made. *)
Definition constructed (tr : list Obs) : list Event :=
  concat (map built_by (calls tr)).

(** The same, leaving out the calls whose status was [YAJL_ERROR]. *)
Definition constructed_ok (tr : list Obs) : list Event :=
  concat (map built_by
            (filter (fun c => match status_of c with
                              | Some r => negb (r =? YAJL_ERROR)
                              | None => true
                              end) (calls tr))).

Definition is_release (c : FCall) : bool :=
  match c with Call_free => true | _ => false end.

Definition is_alloc (c : FCall) : bool :=
  match c with Call_alloc _ => true | _ => false end.

(* ================================================================= *)
(** ** A recogniser to run the generator on

    libyajl is not part of the module. To evaluate [basic_parse] on
    concrete inputs the interface is instantiated by a recogniser for a
    fragment of JSON that is organised like YAJL 1.x: a lexer that keeps
    an unfinished token between calls, a stack of parser states, one
    callback per token, and [yajl_parse_complete] feeding one space to
    flush a trailing number. Outside the fragment: [\u] escapes in
    strings (reported as an invalid escape) and the excerpt of the input
    that the verbose diagnostic appends to its message. *)
Module MiniYajl.

Inductive pstate : Type :=
| st_start | st_parse_complete | st_parse_error | st_lexical_error
| st_map_start | st_map_sep | st_map_need_val | st_map_got_val
| st_map_need_key
| st_array_start | st_array_got_val | st_array_need_val.

Inductive tok : Type :=
| tok_bool (b : bool) | tok_null
| tok_colon | tok_comma
| tok_left_brace | tok_right_brace
| tok_left_bracket | tok_right_bracket
| tok_number (lexeme : bytes)
| tok_string (text : bytes).

Inductive numphase : Type :=
| n_minus | n_zero | n_int | n_dot | n_frac | n_e | n_esign | n_exp.

Inductive literal : Type := lit_true | lit_false | lit_null.

(** The lexer between two calls: between tokens, inside a number
    (with the bytes read so far), inside a string (with its decoded
    bytes, the continuation bytes still owed to a UTF-8 lead byte,
    and whether a backslash was just read), inside a literal (with
    the number of bytes matched after its first letter), or inside a
    comment. *)
Inductive lexstate : Type :=
| lex_start
| lex_number (phase : numphase) (acc : bytes)
| lex_string (acc : bytes) (pending : nat) (escaped : bool)
| lex_literal (l : literal) (seen : nat)
| lex_slash
| lex_line_comment
| lex_block_comment (star : bool).

Record handle : Type := {
  config : Config;
  stateStack : list pstate;
  lexer : lexstate;
  parseError : option string
}.

Definition lexed : Type := list tok * lexstate * option string.

Definition is_digit (b : byte) : bool :=
  match digit_of b with Some _ => true | None => false end.

Definition byte_eqb (a b : byte) : bool := Byte.eqb a b.

(** A byte met between tokens. *)
Definition start_byte (cfg : Config) (b : byte) : lexed :=
  match b with
  | x09 | x0a | x0b | x0c | x0d | x20 => ([], lex_start, None)
  | x7b => ([tok_left_brace], lex_start, None)
  | x7d => ([tok_right_brace], lex_start, None)
  | x5b => ([tok_left_bracket], lex_start, None)
  | x5d => ([tok_right_bracket], lex_start, None)
  | x2c => ([tok_comma], lex_start, None)
  | x3a => ([tok_colon], lex_start, None)
  | x74 => ([], lex_literal lit_true 0, None)
  | x66 => ([], lex_literal lit_false 0, None)
  | x6e => ([], lex_literal lit_null 0, None)
  | x22 => ([], lex_string [] 0 false, None)
  | x2d => ([], lex_number n_minus [b], None)
  | x30 => ([], lex_number n_zero [b], None)
  | x2f =>
      if allowComments cfg =? 0
      then ([], lex_start,
            Some "probable comment found in input text, comments are not enabled."%string)
      else ([], lex_slash, None)
  | _ =>
      if is_digit b then ([], lex_number n_int [b], None)
      else ([], lex_start, Some "invalid char in json text."%string)
  end.

Inductive numstep : Type :=
| NumMore (phase : numphase)
| NumDone
| NumBad (msg : string).

Definition is_exp (b : byte) : bool :=
  match b with x65 | x45 => true | _ => false end.

Definition number_byte (phase : numphase) (b : byte) : numstep :=
  match phase with
  | n_minus =>
      if byte_eqb b x30 then NumMore n_zero
      else if is_digit b then NumMore n_int
      else NumBad "malformed number, a digit is required after the minus sign."
  | n_zero =>
      if byte_eqb b x2e then NumMore n_dot
      else if is_exp b then NumMore n_e
      else NumDone
  | n_int =>
      if is_digit b then NumMore n_int
      else if byte_eqb b x2e then NumMore n_dot
      else if is_exp b then NumMore n_e
      else NumDone
  | n_dot =>
      if is_digit b then NumMore n_frac
      else NumBad "malformed number, a digit is required after the decimal point."
  | n_frac =>
      if is_digit b then NumMore n_frac
      else if is_exp b then NumMore n_e
      else NumDone
  | n_e =>
      if is_digit b then NumMore n_exp
      else match b with
           | x2b | x2d => NumMore n_esign
           | _ => NumBad "malformed number, a digit is required after the exponent."
           end
  | n_esign =>
      if is_digit b then NumMore n_exp
      else NumBad "malformed number, a digit is required after the exponent."
  | n_exp => if is_digit b then NumMore n_exp else NumDone
  end.

(** The character a one-letter escape stands for. *)
Definition unescape (b : byte) : option byte :=
  match b with
  | x22 => Some x22 | x5c => Some x5c | x2f => Some x2f
  | x62 => Some x08 | x66 => Some x0c | x6e => Some x0a
  | x72 => Some x0d | x74 => Some x09
  | _ => None
  end.

Definition string_byte (cfg : Config) (acc : bytes) (pending : nat)
  (escaped : bool) (b : byte) : lexed :=
  if escaped then
    match unescape b with
    | Some c => ([], lex_string (acc ++ [c]) 0 false, None)
    | None =>
        ([], lex_start,
         Some "inside a string, '\' occurs before a character which it may not."%string)
    end
  else
    match pending with
    | S p =>
        if Z.shiftr (ord b) 6 =? 2
        then ([], lex_string (acc ++ [b]) p false, None)
        else ([], lex_start, Some "invalid bytes in UTF8 string."%string)
    | O =>
        if byte_eqb b x22 then ([tok_string acc], lex_start, None)
        else if byte_eqb b x5c then ([], lex_string acc 0 true, None)
        else if ord b <? 32
        then ([], lex_start, Some "invalid character inside string."%string)
        else if (128 <=? ord b) && negb (checkUTF8 cfg =? 0) then
          if Z.shiftr (ord b) 5 =? 6
          then ([], lex_string (acc ++ [b]) 1 false, None)
          else if Z.shiftr (ord b) 4 =? 14
          then ([], lex_string (acc ++ [b]) 2 false, None)
          else if Z.shiftr (ord b) 3 =? 30
          then ([], lex_string (acc ++ [b]) 3 false, None)
          else ([], lex_start, Some "invalid bytes in UTF8 string."%string)
        else ([], lex_string (acc ++ [b]) 0 false, None)
    end.

(** What follows the first letter of a literal, and its token. *)
Definition spelling (l : literal) : bytes :=
  match l with
  | lit_true => [x72; x75; x65]
  | lit_false => [x61; x6c; x73; x65]
  | lit_null => [x75; x6c; x6c]
  end.

Definition literal_tok (l : literal) : tok :=
  match l with
  | lit_true => tok_bool true
  | lit_false => tok_bool false
  | lit_null => tok_null
  end.

(** The lexer, one byte at a time. A byte that ends a number is lexed
    again as the start of what follows. *)
Definition lex_byte (cfg : Config) (s : lexstate) (b : byte) : lexed :=
  match s with
  | lex_start => start_byte cfg b
  | lex_number phase acc =>
      match number_byte phase b with
      | NumMore phase' => ([], lex_number phase' (acc ++ [b]), None)
      | NumDone =>
          let '(ts, s', e) := start_byte cfg b in
          (tok_number acc :: ts, s', e)
      | NumBad msg => ([], lex_start, Some msg)
      end
  | lex_string acc pending escaped => string_byte cfg acc pending escaped b
  | lex_literal l seen =>
      match nth_error (spelling l) seen with
      | Some c =>
          if byte_eqb c b then
            if (S seen =? List.length (spelling l))%nat
            then ([literal_tok l], lex_start, None)
            else ([], lex_literal l (S seen), None)
          else ([], lex_start, Some "invalid string in json text."%string)
      | None => ([], lex_start, Some "invalid string in json text."%string)
      end
  | lex_slash =>
      match b with
      | x2f => ([], lex_line_comment, None)
      | x2a => ([], lex_block_comment false, None)
      | _ => ([], lex_start, Some "invalid char in json text."%string)
      end
  | lex_line_comment =>
      if byte_eqb b x0a then ([], lex_start, None)
      else ([], lex_line_comment, None)
  | lex_block_comment star =>
      if star && byte_eqb b x2f then ([], lex_start, None)
      else ([], lex_block_comment (byte_eqb b x2a), None)
  end.

Definition parsed : Type := list pstate * list Invocation * option string.

Definition unallowed : string := "unallowed token at this point in JSON text".
Definition bad_key : string := "invalid object key (must be a string)".
Definition need_colon : string :=
  "object key and value must be separated by a colon (':')".
Definition need_map_sep : string :=
  "after key and value, inside map, I expect ',' or '}'".
Definition need_array_sep : string :=
  "after array element, I expect ',' or ']'".

(** The parser on one token, after [yajl_do_parse]. *)
Definition parse_tok (stack : list pstate) (t : tok) : parsed :=
  match stack with
  | [] => (stack, [], Some unallowed)
  | s :: below =>
      match s with
      | st_parse_complete => (stack, [], None)
      | st_parse_error | st_lexical_error => (stack, [], Some unallowed)
      | st_start | st_map_need_val | st_array_need_val | st_array_start =>
          let after :=
            match s with
            | st_start => st_parse_complete
            | st_map_need_val => st_map_got_val
            | _ => st_array_got_val
            end in
          match t with
          | tok_string text =>
              (after :: below, [(yajl_string, str_args text)], None)
          | tok_bool b =>
              (after :: below, [(yajl_boolean, [CInt (Z.b2z b)])], None)
          | tok_null => (after :: below, [(yajl_null, [])], None)
          | tok_number lexeme =>
              (after :: below, [(yajl_number, str_args lexeme)], None)
          | tok_left_brace =>
              (st_map_start :: after :: below, [(yajl_start_map, [])], None)
          | tok_left_bracket =>
              (st_array_start :: after :: below,
               [(yajl_start_array, [])], None)
          | tok_right_bracket =>
              match s with
              | st_array_start => (below, [(yajl_end_array, [])], None)
              | _ => (stack, [], Some unallowed)
              end
          | tok_colon | tok_comma | tok_right_brace =>
              (stack, [], Some unallowed)
          end
      | st_map_start | st_map_need_key =>
          match t with
          | tok_string text =>
              (st_map_sep :: below, [(yajl_map_key, str_args text)], None)
          | tok_right_brace =>
              match s with
              | st_map_start => (below, [(yajl_end_map, [])], None)
              | _ => (stack, [], Some bad_key)
              end
          | _ => (stack, [], Some bad_key)
          end
      | st_map_sep =>
          match t with
          | tok_colon => (st_map_need_val :: below, [], None)
          | _ => (stack, [], Some need_colon)
          end
      | st_map_got_val =>
          match t with
          | tok_right_brace => (below, [(yajl_end_map, [])], None)
          | tok_comma => (st_map_need_key :: below, [], None)
          | _ => (stack, [], Some need_map_sep)
          end
      | st_array_got_val =>
          match t with
          | tok_right_bracket => (below, [(yajl_end_array, [])], None)
          | tok_comma => (st_array_need_val :: below, [], None)
          | _ => (stack, [], Some need_array_sep)
          end
      end
  end.

Fixpoint parse_toks (stack : list pstate) (ts : list tok) : parsed :=
  match ts with
  | [] => (stack, [], None)
  | t :: rest =>
      match parse_tok stack t with
      | (stack', made, Some msg) => (stack', made, Some msg)
      | (stack', made, None) =>
          let '(stack'', made', e) := parse_toks stack' rest in
          (stack'', made ++ made', e)
      end
  end.

Definition failed (h : handle) : bool :=
  match parseError h with Some _ => true | None => false end.

Definition complete (h : handle) : bool :=
  match stateStack h with st_parse_complete :: _ => true | _ => false end.

(** One byte through lexer and parser. Nothing is consumed once the
    document is complete or an error has been met. *)
Definition step_byte (h : handle) (b : byte) : handle * list Invocation :=
  if failed h || complete h then (h, [])
  else
    let '(ts, lx, lexical) := lex_byte (config h) (lexer h) b in
    let '(stack, made, syntactic) := parse_toks (stateStack h) ts in
    match syntactic, lexical with
    | Some msg, _ =>
        ({| config := config h; stateStack := st_parse_error :: stack;
            lexer := lx;
            parseError := Some (String.append "parse error: " msg) |}, made)
    | None, Some msg =>
        ({| config := config h; stateStack := st_lexical_error :: stack;
            lexer := lx;
            parseError := Some (String.append "lexical error: " msg) |}, made)
    | None, None =>
        ({| config := config h; stateStack := stack; lexer := lx;
            parseError := None |}, made)
    end.

Fixpoint feed (h : handle) (buffer : bytes) : handle * list Invocation :=
  match buffer with
  | [] => (h, [])
  | b :: rest =>
      let (h', made) := step_byte h b in
      let (h'', made') := feed h' rest in
      (h'', made ++ made')
  end.

Definition status (h : handle) : Z :=
  if failed h then YAJL_ERROR
  else if complete h then YAJL_OK
  else YAJL_INSUFFICIENT_DATA.

Definition parse (h : handle) (buffer : bytes)
  : handle * list Invocation * Z :=
  let (h', made) := feed h buffer in (h', made, status h').

Definition alloc (cfg : Config) : handle :=
  {| config := cfg; stateStack := [st_start]; lexer := lex_start;
     parseError := None |}.

Definition get_error (h : handle) (buffer : bytes) : bytes :=
  match parseError h with
  | Some msg => list_byte_of_string msg ++ [x0a]
  | None => list_byte_of_string "unknown error code" ++ [x0a]
  end.

(** A handle on which a space makes no callback: it has failed, the
    document is complete, or the lexer is between tokens, inside the
    text of a string or inside a comment. *)
Definition settled (h : handle) : bool :=
  failed h || complete h
  || match lexer h with
     | lex_start | lex_string _ O false
     | lex_line_comment | lex_block_comment _ => true
     | _ => false
     end.

#[export] Instance recogniser : Recogniser := {|
  yajl_handle := handle;
  yajl_alloc := alloc;
  yajl_parse := parse;
  yajl_parse_complete := fun h => parse h [x20];
  yajl_get_error := get_error
|}.

End MiniYajl.

(* ================================================================= *)
(** ** Vocabulary of the properties *)

(** The converter registered for an event, applied to its arguments. *)
Definition convert (event : string) (args : list cval) : pyresult pyvalue :=
  match converter_of event _callback_data with
  | Some func => func args
  | None => Raises TypeError
  end.

(** Integer literals: an optional minus sign and a run of digits, each
    digit a number below ten. Their value is given positionally. *)
Definition digit_byte (d : nat) : byte :=
  match Byte.of_N (N.of_nat (48 + d)) with
  | Some b => b
  | None => x30
  end.


Fixpoint positional (ds : list nat) : Z :=
  match ds with
  | [] => 0
  | d :: r => Z.of_nat d * 10 ^ Z.of_nat (List.length r) + positional r
  end.


(** The results of the first [n] calls [f.read(size)], up to the first
    that raises. *)
Fixpoint reads {F : FileLike} (n : nat) (f : file) (size : Z)
  : list (pyresult bytes) :=
  match n with
  | O => []
  | S k =>
      match read f size with
      | Returns (piece, f') => Returns piece :: reads k f' size
      | Raises x => [Raises x]
      end
  end.

(** A file-like object that goes through a prepared sequence of
    results, whatever size is asked for, and delivers nothing after
    them. *)
Definition script_read (f : list (pyresult bytes)) (n : Z)
  : pyresult (bytes * list (pyresult bytes)) :=
  match f with
  | Returns piece :: rest => Returns (piece, rest)
  | Raises x :: rest => Raises x
  | [] => Returns ([], [])
  end.

Definition Scripted : FileLike :=
  {| file := list (pyresult bytes); read := script_read |}.

(** A recogniser that works on a stream: cutting a buffer in two and
    parsing the halves one after the other makes the same callbacks and
    ends in the same state and status as parsing it whole, and an error
    in either half is an error of the whole. *)
Class Streaming (Y : Recogniser) : Prop := {
  parse_app :
    forall h a b h1 c1 s1 h2 c2 s2,
      a <> [] -> b <> [] ->
      yajl_parse h a = (h1, c1, s1) -> s1 <> YAJL_ERROR ->
      yajl_parse h1 b = (h2, c2, s2) -> s2 <> YAJL_ERROR ->
      yajl_parse h (a ++ b) = (h2, c1 ++ c2, s2);
  parse_error_first :
    forall h a b h1 c1,
      a <> [] -> b <> [] ->
      yajl_parse h a = (h1, c1, YAJL_ERROR) ->
      snd (yajl_parse h (a ++ b)) = YAJL_ERROR;
  parse_error_second :
    forall h a b h1 c1 s1 h2 c2,
      a <> [] -> b <> [] ->
      yajl_parse h a = (h1, c1, s1) -> s1 <> YAJL_ERROR ->
      yajl_parse h1 b = (h2, c2, YAJL_ERROR) ->
      snd (yajl_parse h (a ++ b)) = YAJL_ERROR
}.

(** A recogniser whose end-of-input call flushes at most once: called
    again on the handle it returned, it makes no callback. *)
Class Quiet (Y : Recogniser) : Prop := {
  complete_twice :
    forall h h1 c1 s1,
      yajl_parse_complete h = (h1, c1, s1) ->
      exists h2 s2, yajl_parse_complete h1 = (h2, [], s2)
}.

Definition malformed (out : Outcome) : bool :=
  match out with Raised (JSONError _) => true | _ => false end.

(** The handle is released once, by the last call of the run. *)
Definition released_once (cs : list FCall) : Prop :=
  exists before, cs = before ++ [Call_free]
                 /\ forallb (fun c => negb (is_release c)) before = true.

(** A call that neither allocates nor releases the handle. *)
Definition inner_call (c : FCall) : bool :=
  negb (is_release c) && negb (is_alloc c).

Section Iteration.
Context {Y : Recogniser} {F : FileLike}.
Variable buf_size : Z.

(** The five ways through one iteration of the loop. *)
Inductive iteration (fuel : nat) (consumer : Consumer) (f : file)
  (handle : yajl_handle) (events : list Event) (tr : list Obs)
  (out : Outcome) : Prop :=
| it_unread x
    (Hread : read f buf_size = Raises x)
    (Htr : tr = [Foreign Call_free])
    (Hout : out = Raised x)
| it_error buffer f' handle' made entry
    (Hread : read f buf_size = Returns (buffer, f'))
    (Hcall : (if is_empty buffer then yajl_parse_complete handle
              else yajl_parse handle buffer) = (handle', made, YAJL_ERROR))
    (Hentry : entry = parse_entry buffer (run_callbacks [] made) YAJL_ERROR)
    (Htr : tr = [Foreign entry; Foreign (Call_get_error buffer);
                 Foreign Call_free_error; Foreign Call_free])
    (Hout : out = Raised (JSONError (yajl_get_error handle' buffer)))
| it_end f' handle' made result entry
    (Hread : read f buf_size = Returns ([], f'))
    (Hcall : yajl_parse_complete handle = (handle', made, result))
    (Hresult : result <> YAJL_ERROR)
    (Hevents : run_callbacks events made = [])
    (Hentry : entry = parse_entry [] (run_callbacks [] made) result)
    (Htr : tr = [Foreign entry; Foreign Call_free])
    (Hout : out = if result =? YAJL_INSUFFICIENT_DATA
                  then Raised IncompleteJSONError else Exhausted)
| it_closed buffer f' handle' made result entry ys
    (Hread : read f buf_size = Returns (buffer, f'))
    (Hcall : (if is_empty buffer then yajl_parse_complete handle
              else yajl_parse handle buffer) = (handle', made, result))
    (Hresult : result <> YAJL_ERROR)
    (Hsome : is_empty buffer && is_empty (run_callbacks events made) = false)
    (Hentry : entry = parse_entry buffer (run_callbacks [] made) result)
    (Hfor : for_yield consumer (run_callbacks events made) = (ys, None))
    (Htr : tr = Foreign entry :: map Yield ys ++ [Foreign Call_free])
    (Hout : out = Closed)
| it_again buffer f' handle' made result entry ys consumer' rest
    (Hread : read f buf_size = Returns (buffer, f'))
    (Hcall : (if is_empty buffer then yajl_parse_complete handle
              else yajl_parse handle buffer) = (handle', made, result))
    (Hresult : result <> YAJL_ERROR)
    (Hsome : is_empty buffer && is_empty (run_callbacks events made) = false)
    (Hentry : entry = parse_entry buffer (run_callbacks [] made) result)
    (Hfor : for_yield consumer (run_callbacks events made)
            = (ys, Some consumer'))
    (Hrest : reader_loop buf_size fuel consumer' f' handle' [] = (rest, out))
    (Htr : tr = Foreign entry :: map Yield ys ++ rest).
End Iteration.

Section Whole.
Context {Y : Recogniser}.

(** The handle and the events after the whole content has gone
    through the recogniser as one buffer (nothing is parsed when the
    content is empty), and the content being accepted by that call. *)
Definition after_content (handle : yajl_handle) (content : bytes)
  : yajl_handle * list Event :=
  if is_empty content then (handle, [])
  else (fst (fst (yajl_parse handle content)),
        run_callbacks [] (snd (fst (yajl_parse handle content)))).

Definition accepted (handle : yajl_handle) (content : bytes) : Prop :=
  content = [] \/ snd (yajl_parse handle content) <> YAJL_ERROR.
End Whole.

(** Inputs used in the examples. *)
Module Inputs.
(** [{"a":] *)
Definition truncated : bytes := [x7b; x22; x61; x22; x3a].
(** [{"a":}] *)
Definition invalid : bytes := [x7b; x22; x61; x22; x3a; x7d].
(** [[1,}] *)
Definition late_error : bytes := [x5b; x31; x2c; x7d].
(** [[1, "x", {"k": true}]] *)
Definition sample : bytes :=
  [x5b; x31; x2c; x20; x22; x78; x22; x2c; x20; x7b; x22; x6b; x22; x3a;
   x20; x74; x72; x75; x65; x7d; x5d].
(** The two bytes of U+00E9 in UTF-8. *)
Definition e_acute : bytes := [xc3; xa9].
End Inputs.

(** [basic_parse] on an ordinary file, with the recogniser above. *)
Definition parse_file (content : bytes) (allow_comments check_utf8 : bool)
  (buf_size : Z) (consumer : Consumer) (fuel : nat) : Run :=
  basic_parse (Y := MiniYajl.recogniser) (F := PyFile) buf_size content
    allow_comments check_utf8 consumer fuel.

(* ================================================================= *)
(** ** Vocabulary of the further properties *)

(** Decimal literals with a fraction: an optional minus sign, digits,
    a point, digits. *)
Definition frac_literal (negative : bool) (ip fp : list nat) : bytes :=
  (if negative then [x2d] else [])
  ++ map digit_byte ip ++ x2e :: map digit_byte fp.

(** The arguments ctypes passes to a callback of a given prototype,
    after the context pointer. *)
Definition prototype_args (ty : cfunctype) (args : list cval) : bool :=
  match ty, args with
  | C_EMPTY, [] => true
  | C_INT, [CInt _] => true
  | C_LONG, [CInt _] => true
  | C_DOUBLE, [CDouble _] => true
  | C_STR, [CPointer _; CInt _] => true
  | _, _ => false
  end.

(** The token kind a field of YAJL's callback structure stands for. *)
Definition field_name (c : yajl_callback) : string :=
  match c with
  | yajl_null => "null" | yajl_boolean => "boolean"
  | yajl_integer => "integer" | yajl_double => "double"
  | yajl_number => "number" | yajl_string => "string"
  | yajl_start_map => "start_map" | yajl_map_key => "map_key"
  | yajl_end_map => "end_map" | yajl_start_array => "start_array"
  | yajl_end_array => "end_array"
  end.

(** The pairs listed in the docstring of [basic_parse]:
    [('null', None)], [('boolean', <True or False>)],
    [('number', <int or Decimal>)], [('string', <unicode>)],
    [('map_key', <str>)], and [None] for the four structural events. *)
Definition documented (e : Event) : bool :=
  let (name, value) := e in
  if existsb (String.eqb name)
       ["null"; "start_map"; "end_map"; "start_array"; "end_array"]%string
  then match value with PyNone => true | _ => false end
  else if String.eqb name "boolean"
  then match value with PyBool _ => true | _ => false end
  else if String.eqb name "number"
  then match value with PyInt _ | PyDecimal _ => true | _ => false end
  else if String.eqb name "string"
  then match value with PyUnicode _ => true | _ => false end
  else if String.eqb name "map_key"
  then match value with PyStr _ => true | _ => false end
  else false.

(** A recogniser that calls every callback with the arguments of its
    prototype, as a C library does. *)
Definition typed_call (call : Invocation) : bool :=
  match nth_error _callback_data (field_index (fst call)) with
  | Some (_, ty, _) => prototype_args ty (snd call)
  | None => false
  end.

Class Typed (Y : Recogniser) : Prop := {
  parse_typed :
    forall h buffer, forallb typed_call (snd (fst (yajl_parse h buffer))) = true;
  complete_typed :
    forall h, forallb typed_call (snd (fst (yajl_parse_complete h))) = true
}.

(** The bytes handed to the recogniser during a run, in order. *)
Definition fed_by (c : FCall) : bytes :=
  match c with
  | Call_parse buffer _ _ => buffer
  | _ => []
  end.

Definition fed (tr : list Obs) : bytes := concat (map fed_by (calls tr)).

Definition ascii (s : bytes) : bool := forallb (fun b => ord b <? 128) s.





(* ================================================================= *)
(** * Properties *)

(** ** Converters *)

Lemma lstrip_head (b : byte) (r : bytes) :
  is_space b = false -> lstrip (b :: r) = b :: r.
Proof. intros Hb. simpl. now rewrite Hb. Qed.

(** A byte string that neither starts nor ends with whitespace is left
    alone by [strip]. *)
Lemma strip_clean (s : bytes) (first last : byte) :
  hd_error s = Some first -> hd_error (rev s) = Some last ->
  is_space first = false -> is_space last = false ->
  strip s = s.
Proof.
  intros Hf Hl Hsf Hsl. unfold strip.
  destruct s as [|b r]; [discriminate|].
  injection Hf as ->. rewrite lstrip_head by assumption.
  destruct (rev (first :: r)) as [|c t] eqn:E; [discriminate|].
  injection Hl as ->. rewrite lstrip_head by assumption.
  rewrite <- E. apply rev_involutive.
Qed.

Lemma digit_byte_spec (d : nat) :
  (d <= 9)%nat ->
  digit_of (digit_byte d) = Some (Z.of_nat d)
  /\ is_space (digit_byte d) = false
  /\ digit_byte d <> x2d /\ digit_byte d <> x2b.
Proof.
  intros Hd.
  do 10 (destruct d as [|d]; [repeat split; discriminate|]).
  lia.
Qed.

Lemma digits_value_literal (ds : list nat) :
  Forall (fun d => (d <= 9)%nat) ds ->
  forall acc,
    digits_value acc (map digit_byte ds)
    = Some (acc * 10 ^ Z.of_nat (List.length ds) + positional ds).
Proof.
  induction 1 as [|d ds Hd _ IH]; intros acc;
    cbn [map digits_value positional List.length].
  - f_equal. change (10 ^ Z.of_nat 0) with 1. lia.
  - destruct (digit_byte_spec Hd) as [-> _]. rewrite IH. f_equal.
    rewrite Nat2Z.inj_succ, Z.pow_succ_r by lia. lia.
Qed.


Lemma literal_last (ds : list nat) :
  ds <> [] -> Forall (fun d => (d <= 9)%nat) ds ->
  forall pre, exists last,
    hd_error (rev (pre ++ map digit_byte ds)) = Some last
    /\ is_space last = false.
Proof.
  intros Hne Hds pre.
  destruct (exists_last Hne) as (front & d & ->).
  apply Forall_app in Hds as [_ Hd]. inversion Hd as [|? ? Hd9 _]; subst.
  exists (digit_byte d). rewrite map_app, app_assoc, rev_app_distr.
  cbn [map rev app hd_error]. split; [reflexivity|]. now destruct (digit_byte_spec Hd9) as (_ & ? & _).
Qed.


Lemma string_at_args (payload : bytes) :
  match str_args payload with
  | [v; l] => string_at v l = Returns payload
  | _ => False
  end.
Proof.
  simpl. now rewrite Nat2Z.id, firstn_all.
Qed.

Lemma convert_string (payload : bytes) :
  convert "string" (str_args payload) = decode_utf8 payload.
Proof.
  unfold convert, str_args. simpl.
  now rewrite Nat2Z.id, firstn_all.
Qed.

Lemma convert_map_key (payload : bytes) :
  convert "map_key" (str_args payload) = Returns (PyStr payload).
Proof.
  unfold convert, str_args. simpl.
  now rewrite Nat2Z.id, firstn_all.
Qed.




(** ** The callback closures and the shared list *)

Lemma Callbacks_closures (cb : CFunc) :
  In cb Callbacks ->
  exists event func, pyfunc cb = c_callback event func.
Proof.
  unfold Callbacks. intros H. apply in_map_iff in H as ([[event ty] func] & <- & _).
  now exists event, func.
Qed.

(** A call through a thunk appends one event or leaves the list alone. *)
Lemma invoke_appends (events : list Event) (call : Invocation) :
  invoke events call = events ++ invoke [] call.
Proof.
  unfold invoke.
  destruct (nth_error Callbacks (field_index (fst call))) as [cb|] eqn:E;
    [|now rewrite app_nil_r].
  apply nth_error_In in E. destruct (Callbacks_closures E) as (ev & func & ->).
  unfold c_callback. destruct (func (snd call)); [reflexivity|].
  now rewrite app_nil_r.
Qed.

Lemma run_callbacks_appends (made : list Invocation) :
  forall events, run_callbacks events made = events ++ run_callbacks [] made.
Proof.
  unfold run_callbacks.
  induction made as [|call made IH]; intros events; simpl.
  - now rewrite app_nil_r.
  - rewrite IH, (IH (invoke [] call)), (invoke_appends events).
    now rewrite app_assoc.
Qed.

Lemma run_callbacks_app (a b : list Invocation) :
  run_callbacks [] (a ++ b) = run_callbacks [] a ++ run_callbacks [] b.
Proof.
  unfold run_callbacks at 1. rewrite fold_left_app.
  fold (run_callbacks [] a).
  exact (run_callbacks_appends b (run_callbacks [] a)).
Qed.

Lemma invoke_string (events : list Event) (payload : bytes) :
  invoke events (yajl_string, str_args payload)
  = match utf8_decode payload with
    | Some text => events ++ [("string"%string, PyUnicode text)]
    | None => events
    end.
Proof.
  unfold invoke, str_args. simpl.
  unfold c_callback, lambda2, string_at, bind.
  rewrite Nat2Z.id, firstn_all.
  unfold decode_utf8. now destruct (utf8_decode payload).
Qed.

Lemma invoke_map_key (events : list Event) (payload : bytes) :
  invoke events (yajl_map_key, str_args payload)
  = events ++ [("map_key"%string, PyStr payload)].
Proof.
  unfold invoke, str_args. simpl.
  unfold c_callback, lambda2, string_at, bind.
  now rewrite Nat2Z.id, firstn_all.
Qed.

(** C5, as the code has it. The value of a 'string' event is the text
    decoded from the UTF-8 payload. The value of a 'map_key' event is the
    payload itself, the undecoded byte string, whatever the bytes are. *)
Theorem string_decoded_map_key_raw (events : list Event) (payload : bytes) :
  (forall text,
     utf8_decode payload = Some text ->
     invoke events (yajl_string, str_args payload)
     = events ++ [("string"%string, PyUnicode text)])
  /\ invoke events (yajl_map_key, str_args payload)
     = events ++ [("map_key"%string, PyStr payload)]
  /\ convert "map_key" (str_args payload) = Returns (PyStr payload).
Proof.
  split; [|split].
  - intros text H. now rewrite invoke_string, H.
  - apply invoke_map_key.
  - apply convert_map_key.
Qed.

Lemma string_decoded_map_key_raw_witness :
  utf8_decode Inputs.e_acute = Some [233]
  /\ invoke [] (yajl_string, str_args Inputs.e_acute)
     = [("string"%string, PyUnicode [233])].
Proof.
  split; [reflexivity|].
  exact (proj1 (string_decoded_map_key_raw [] Inputs.e_acute) [233] eq_refl).
Defined.

(** C5 as stated fails: the key whose payload is the two bytes of U+00E9
    reaches the consumer as those two bytes, not as text. *)
Lemma map_key_not_decoded :
  valid_utf8 Inputs.e_acute = true
  /\ invoke [] (yajl_map_key, str_args Inputs.e_acute)
     = [("map_key"%string, PyStr [xc3; xa9])]
  /\ ~ (exists text,
          invoke [] (yajl_map_key, str_args Inputs.e_acute)
          = [("map_key"%string, PyUnicode text)]).
Proof.
  split; [reflexivity|]. split; [reflexivity|].
  intros (text & H). rewrite invoke_map_key in H. discriminate.
Qed.

(** C8, as the code has it. A callback whose converter returns appends
    the event and returns 1; a callback whose converter raises lets the
    exception out of [c_callback], and neither the append nor the return
    is reached. Seen from the generator, a call through the thunk
    appends its event or leaves the shared list as it was: nothing else
    records the failure. *)
Theorem callback_appends_or_raises (event : string) (func : converter)
  (events : list Event) (args : list cval) :
  (forall v,
     func args = Returns v ->
     c_callback event func events args
     = Returns (events ++ [(event, v)], 1))
  /\ (forall x,
        func args = Raises x ->
        c_callback event func events args = Raises x)
  /\ (forall r, c_callback event func events args = Returns r -> snd r = 1)
  /\ (forall call,
        (exists e, invoke events call = events ++ [e])
        \/ invoke events call = events).
Proof.
  unfold c_callback. repeat split.
  - now intros v ->.
  - now intros x ->.
  - intros r. destruct (func args); [|discriminate].
    now intros [= <-].
  - intros call. unfold invoke.
    destruct (nth_error Callbacks (field_index (fst call))) as [cb|] eqn:E;
      [|now right].
    apply nth_error_In in E.
    destruct (Callbacks_closures E) as (ev & f & ->).
    unfold c_callback. destruct (f (snd call)); [left; eauto|now right].
Qed.

Lemma callback_appends_or_raises_witness :
  convert "string" (str_args [x78]) = Returns (PyUnicode [120])
  /\ c_callback "string" (convert "string") [] (str_args [x78])
     = Returns ([("string"%string, PyUnicode [120])], 1)
  /\ convert "string" (str_args [xff]) = Raises UnicodeDecodeError
  /\ c_callback "string" (convert "string") [] (str_args [xff])
     = Raises UnicodeDecodeError.
Proof.
  split; [reflexivity|]. split.
  - exact (proj1 (callback_appends_or_raises "string" (convert "string")
                    [] (str_args [x78])) _ eq_refl).
  - split; [reflexivity|].
    exact (proj1 (proj2 (callback_appends_or_raises "string"
                           (convert "string") [] (str_args [xff])))
             _ eq_refl).
Defined.

(** C8 as stated fails: the closure registered for 'string', called on
    the payload FF, raises instead of returning, and the shared list is
    what it was. *)
Lemma string_callback_raises :
  exists cb,
    nth_error Callbacks (field_index yajl_string) = Some cb
    /\ pyfunc cb [] (str_args [xff]) = Raises UnicodeDecodeError
    /\ ~ (exists v,
            pyfunc cb [] (str_args [xff])
            = Returns ([("string"%string, v)], 1))
    /\ invoke [] (yajl_string, str_args [xff]) = [].
Proof.
  eexists. split; [reflexivity|]. split; [reflexivity|]. split.
  - intros (v & H). discriminate H.
  - reflexivity.
Qed.




(** ** Runs of the generator *)

Lemma yielded_app (a b : list Obs) : yielded (a ++ b) = yielded a ++ yielded b.
Proof.
  induction a as [|[c|e] a IH]; simpl; [reflexivity|assumption|now f_equal].
Qed.

Lemma calls_app (a b : list Obs) : calls (a ++ b) = calls a ++ calls b.
Proof.
  induction a as [|[c|e] a IH]; simpl; [reflexivity|now f_equal|assumption].
Qed.

Lemma yielded_yields (ys : list Event) : yielded (map Yield ys) = ys.
Proof. induction ys; simpl; [reflexivity|now f_equal]. Qed.

Lemma calls_yields (ys : list Event) : calls (map Yield ys) = [].
Proof. induction ys; simpl; [reflexivity|assumption]. Qed.

Lemma parse_entry_spec (buffer : bytes) (built : list Event) (result : Z) :
  built_by (parse_entry buffer built result) = built
  /\ status_of (parse_entry buffer built result) = Some result
  /\ is_release (parse_entry buffer built result) = false
  /\ is_alloc (parse_entry buffer built result) = false.
Proof. unfold parse_entry. now destruct (is_empty buffer). Qed.

Lemma for_yield_spec (consumer : Consumer) (events ys : list Event)
  (after : option Consumer) :
  for_yield consumer events = (ys, after) ->
  exists later,
    events = ys ++ later
    /\ (after <> None -> later = [])
    /\ (consumer = Drain -> after = Some Drain).
Proof.
  destruct consumer as [|n]; simpl.
  - intros [= <- <-]. exists []. now rewrite app_nil_r.
  - destruct (List.length events <? n)%nat.
    + intros [= <- <-]. exists []. rewrite app_nil_r.
      repeat split; congruence.
    + intros [= <- <-]. exists (skipn n events).
      rewrite firstn_skipn. repeat split; congruence.
Qed.

Section Runs.
Context {Y : Recogniser} {F : FileLike}.
Variable buf_size : Z.

Lemma reader_loop_inv (fuel : nat) (consumer : Consumer) (f : file)
  (handle : yajl_handle) (events : list Event) (tr : list Obs)
  (out : Outcome) :
  reader_loop buf_size (S fuel) consumer f handle events = (tr, out) ->
  iteration buf_size fuel consumer f handle events tr out.
Proof.
  cbn [reader_loop].
  destruct (read f buf_size) as [[buffer f']|x] eqn:Hread;
    [|intros [= <- <-]; eapply it_unread; eauto].
  destruct (if is_empty buffer then yajl_parse_complete handle
            else yajl_parse handle buffer) as [[handle' made] result]
    eqn:Hcall.
  destruct (result =? YAJL_ERROR) eqn:Herr.
  - apply Z.eqb_eq in Herr. subst result. intros [= <- <-].
    eapply it_error; eauto.
  - apply Z.eqb_neq in Herr.
    destruct (is_empty buffer && is_empty (run_callbacks events made))
      eqn:Hsome.
    + apply andb_true_iff in Hsome as [Hb He].
      destruct buffer; [|discriminate].
      destruct (run_callbacks events made) eqn:Hev; [|discriminate].
      simpl in Hcall.
      destruct (result =? YAJL_INSUFFICIENT_DATA) eqn:Hins;
        intros [= <- <-]; eapply it_end; eauto; now rewrite Hins.
    + destruct (for_yield consumer (run_callbacks events made))
        as [ys [consumer'|]] eqn:Hfor.
      * destruct (reader_loop buf_size fuel consumer' f' handle' [])
          as [rest out'] eqn:Hrest.
        intros [= <- <-]. eapply it_again; eauto.
      * intros [= <- <-]. eapply it_closed; eauto.
Qed.
End Runs.

Lemma constructed_ok_cons_parse (entry : FCall) (tr : list Obs)
  (built : list Event) (result : Z) :
  built_by entry = built -> status_of entry = Some result ->
  result <> YAJL_ERROR ->
  constructed_ok (Foreign entry :: tr) = built ++ constructed_ok tr
  /\ constructed (Foreign entry :: tr) = built ++ constructed tr.
Proof.
  intros Hb Hs Hr. unfold constructed_ok, constructed. simpl. rewrite Hs.
  apply Z.eqb_neq in Hr. rewrite Hr. simpl. now rewrite Hb.
Qed.

Lemma constructed_ok_cons_error (entry : FCall) (tr : list Obs) :
  status_of entry = Some YAJL_ERROR ->
  constructed_ok (Foreign entry :: tr) = constructed_ok tr.
Proof.
  intros Hs. unfold constructed_ok. simpl. now rewrite Hs.
Qed.

Lemma constructed_ok_yields (ys : list Event) (tr : list Obs) :
  constructed_ok (map Yield ys ++ tr) = constructed_ok tr
  /\ constructed (map Yield ys ++ tr) = constructed tr.
Proof.
  unfold constructed_ok, constructed. now rewrite calls_app, calls_yields.
Qed.

Section Order.
Context {Y : Recogniser} {F : FileLike}.
Variable buf_size : Z.

Lemma loop_yields_in_order (fuel : nat) :
  forall consumer f handle tr out,
    reader_loop buf_size fuel consumer f handle [] = (tr, out) ->
    (exists later, constructed_ok tr = yielded tr ++ later)
    /\ (consumer = Drain -> yielded tr = constructed_ok tr)
    /\ (malformed out = false -> constructed_ok tr = constructed tr).
Proof.
  induction fuel as [|fuel IH]; intros consumer f handle tr out Hrun.
  - injection Hrun as <- <-. repeat split. now exists [].
  - apply reader_loop_inv in Hrun.
    destruct Hrun; subst tr; try subst entry; try subst out.
    + repeat split. now exists [].
    + destruct (parse_entry_spec buffer (run_callbacks [] made) YAJL_ERROR)
        as (Hb & Hs & _).
      rewrite constructed_ok_cons_error by exact Hs.
      repeat split; try discriminate. now exists [].
    + destruct (parse_entry_spec [] (run_callbacks [] made) result)
        as (Hb & Hs & _).
      destruct (@constructed_ok_cons_parse _ [Foreign Call_free] _ _ Hb Hs Hresult)
        as [-> ->].
      rewrite Hevents. repeat split. now exists [].
    + destruct (parse_entry_spec buffer (run_callbacks [] made) result)
        as (Hb & Hs & _).
      destruct (@constructed_ok_cons_parse _
                  (map Yield ys ++ [Foreign Call_free]) _ _ Hb Hs Hresult)
        as [-> ->].
      destruct (constructed_ok_yields ys [Foreign Call_free]) as [-> ->].
      destruct (for_yield_spec _ _ Hfor) as (later & Hev & _ & Hdrain).
      simpl. rewrite yielded_app, yielded_yields. simpl.
      rewrite !app_nil_r. repeat split.
      * now exists later.
      * intros ->. now specialize (Hdrain eq_refl).
    + destruct (parse_entry_spec buffer (run_callbacks [] made) result)
        as (Hb & Hs & _).
      destruct (@constructed_ok_cons_parse _ (map Yield ys ++ rest) _ _
                  Hb Hs Hresult) as [-> ->].
      destruct (constructed_ok_yields ys rest) as [-> ->].
      destruct (for_yield_spec _ _ Hfor) as (later & Hev & Hnil & Hdrain).
      rewrite (Hnil ltac:(discriminate)), app_nil_r in Hev.
      destruct (IH _ _ _ _ _ Hrest) as ((later' & Hpre) & Hall & Hok).
      simpl. rewrite yielded_app, yielded_yields, <- Hev.
      repeat split.
      * exists later'. now rewrite Hpre, app_assoc.
      * intros ->. specialize (Hdrain eq_refl). injection Hdrain as ->.
        now rewrite Hall.
      * intros Hm. now rewrite Hok.
Qed.

(** C1, as the code has it. Whatever the recogniser, the input and the
    configuration, the events handed to the consumer are a prefix of
    the events the callbacks built during the calls that did not
    return [YAJL_ERROR], in the order the callbacks were made. A
    consumer that iterates to the end gets all of them. The events
    built during a call that returns [YAJL_ERROR] are not yielded: the
    status is looked at first. When the run does not end in the
    malformed-input error, no call returned it, and the consumer gets
    every event that was built. *)
Theorem events_in_callback_order (f : file) (allow_comments check_utf8 : bool)
  (consumer : Consumer) (fuel : nat) :
  let run := basic_parse buf_size f allow_comments check_utf8 consumer fuel in
  (exists later, constructed_ok (fst run) = yielded (fst run) ++ later)
  /\ (consumer = Drain -> yielded (fst run) = constructed_ok (fst run))
  /\ (consumer = Drain -> malformed (snd run) = false ->
      yielded (fst run) = constructed (fst run)).
Proof.
  unfold basic_parse.
  set (config := {| allowComments := Z.b2z allow_comments;
                    checkUTF8 := Z.b2z check_utf8 |}).
  destruct (reader_loop buf_size fuel consumer f (yajl_alloc config) [])
    as [rest out] eqn:Hrun.
  destruct (loop_yields_in_order _ _ _ _ Hrun) as (Hpre & Hall & Hok).
  assert (Hstart :
    let run := (Foreign (Call_alloc config) :: rest, out) in
    (exists later, constructed_ok (fst run) = yielded (fst run) ++ later)
    /\ (consumer = Drain -> yielded (fst run) = constructed_ok (fst run))
    /\ (consumer = Drain -> malformed (snd run) = false ->
        yielded (fst run) = constructed (fst run))).
  { cbn [fst snd yielded].
    change (constructed_ok (Foreign (Call_alloc config) :: rest))
      with (constructed_ok rest).
    change (constructed (Foreign (Call_alloc config) :: rest))
      with (constructed rest).
    repeat split; [assumption|assumption|].
    intros Hd Hm. now rewrite <- Hok, Hall. }
  destruct consumer as [|[|n]]; try exact Hstart.
  cbn. repeat split; try discriminate. now exists [].
Qed.
End Order.

(** The sample document read four bytes at a time by a consumer that
    iterates to the end: the eight events the callbacks built. *)
Lemma events_in_callback_order_witness :
  let run := parse_file Inputs.sample false false 4 Drain 10 in
  malformed (snd run) = false
  /\ yielded (fst run) = constructed (fst run)
  /\ List.length (yielded (fst run)) = 8%nat.
Proof.
  intros run.
  pose proof (@events_in_callback_order MiniYajl.recogniser PyFile 4
                Inputs.sample false false Drain 10) as H.
  cbv zeta in H. destruct H as (_ & _ & H).
  assert (Hm : malformed (snd run) = false) by (vm_compute; reflexivity).
  split; [exact Hm|]. split; [exact (H eq_refl Hm)|].
  vm_compute. reflexivity.
Defined.

(** C1 as stated fails: on the input [[1,}] read in one piece the
    callbacks build two events during a call that returns [YAJL_ERROR],
    and the consumer gets none of them. *)
Lemma events_of_failing_call_dropped :
  let run := parse_file Inputs.late_error false false default_buf_size
               Drain 4 in
  constructed (fst run)
  = [("start_array"%string, PyNone); ("number"%string, PyInt 1)]
  /\ yielded (fst run) = []
  /\ malformed (snd run) = true
  /\ yielded (fst run) <> constructed (fst run).
Proof.
  vm_compute. repeat split. discriminate.
Qed.

Section Errors.
Context {Y : Recogniser} {F : FileLike}.
Variable buf_size : Z.

Lemma basic_parse_inv (f : file) (allow_comments check_utf8 : bool)
  (consumer : Consumer) (fuel : nat) (tr : list Obs) (out : Outcome) :
  basic_parse buf_size f allow_comments check_utf8 consumer fuel = (tr, out) ->
  (consumer = Take 0 /\ tr = [] /\ out = Closed)
  \/ (exists config rest,
        tr = Foreign (Call_alloc config) :: rest
        /\ reader_loop buf_size fuel consumer f (yajl_alloc config) []
           = (rest, out)).
Proof.
  unfold basic_parse.
  set (config := {| allowComments := Z.b2z allow_comments;
                    checkUTF8 := Z.b2z check_utf8 |}).
  destruct (reader_loop buf_size fuel consumer f (yajl_alloc config) [])
    as [rest out'] eqn:Hrun.
  destruct consumer as [|[|n]].
  - intros [= <- <-]. right. now exists config, rest.
  - intros [= <- <-]. now left.
  - intros [= <- <-]. right. now exists config, rest.
Qed.

Lemma parse_entry_not_final (buffer : bytes) (events : list Event)
  (result : Z) :
  is_empty buffer && is_empty events = false ->
  parse_entry buffer events result
  <> Call_parse_complete [] YAJL_INSUFFICIENT_DATA.
Proof.
  unfold parse_entry. destruct buffer; simpl; [|discriminate].
  destruct events; [discriminate|]. intros _ H. discriminate H.
Qed.

Lemma loop_premature_end (fuel : nat) :
  forall consumer f handle tr out,
    reader_loop buf_size fuel consumer f handle [] = (tr, out) ->
    In (Call_parse_complete [] YAJL_INSUFFICIENT_DATA) (calls tr) ->
    out = Raised IncompleteJSONError
    /\ exists before,
         tr = before ++ [Foreign (Call_parse_complete []
                                    YAJL_INSUFFICIENT_DATA);
                         Foreign Call_free].
Proof.
  induction fuel as [|fuel IH]; intros consumer f handle tr out Hrun Hin.
  - injection Hrun as <- <-. contradiction.
  - apply reader_loop_inv in Hrun.
    destruct Hrun; subst tr; try subst entry; try subst out.
    + exfalso. simpl in Hin. destruct Hin as [H|[]]. discriminate.
    + exfalso. simpl in Hin.
      destruct Hin as [H|[H|[H|[H|[]]]]]; try discriminate.
      unfold parse_entry in H. destruct (is_empty buffer); discriminate.
    + simpl in Hin. destruct Hin as [H|[H|[]]]; [|discriminate].
      unfold parse_entry in *. simpl in *. injection H as Hb ->.
      rewrite Hb. split; [reflexivity|]. now exists [].
    + exfalso. simpl in Hin. rewrite calls_app, calls_yields in Hin.
      destruct Hin as [H|[H|[]]]; [|discriminate].
      now apply parse_entry_not_final in H.
    + simpl in Hin. rewrite calls_app, calls_yields in Hin.
      destruct Hin as [H|Hin];
        [now apply parse_entry_not_final in H|].
      destruct (IH _ _ _ _ _ Hrest Hin) as (-> & before & ->).
      split; [reflexivity|].
      exists (Foreign (parse_entry buffer (run_callbacks [] made) result)
                :: map Yield ys ++ before).
      simpl. now rewrite <- app_assoc.
Qed.

(** C3. When [read] returns nothing, the end-of-input call returns
    [YAJL_INSUFFICIENT_DATA] and the callbacks have left the shared
    list empty, the iteration releases the handle and raises
    [IncompleteJSONError], which is not the malformed-input error
    [JSONError]. In a run of [basic_parse] every such call is the last
    parse call: the run ends with it and the release, raising
    [IncompleteJSONError]. *)
Theorem premature_end_raises (fuel : nat) (consumer : Consumer) (f f' : file)
  (handle handle' : yajl_handle) (made : list Invocation)
  (exhausted : read f buf_size = Returns ([], f'))
  (insufficient : yajl_parse_complete handle
                  = (handle', made, YAJL_INSUFFICIENT_DATA))
  (no_events : run_callbacks [] made = []) :
  reader_loop buf_size (S fuel) consumer f handle []
  = ([Foreign (Call_parse_complete [] YAJL_INSUFFICIENT_DATA);
      Foreign Call_free],
     Raised IncompleteJSONError)
  /\ (forall error, IncompleteJSONError <> JSONError error)
  /\ (forall file allow_comments check_utf8 consumer fuel,
        let run := basic_parse buf_size file allow_comments check_utf8
                     consumer fuel in
        In (Call_parse_complete [] YAJL_INSUFFICIENT_DATA)
           (calls (fst run)) ->
        snd run = Raised IncompleteJSONError
        /\ exists before,
             fst run
             = before ++ [Foreign (Call_parse_complete []
                                     YAJL_INSUFFICIENT_DATA);
                          Foreign Call_free]).
Proof.
  split; [|split].
  - cbn [reader_loop]. rewrite exhausted. cbn [is_empty].
    rewrite insufficient, no_events. reflexivity.
  - discriminate.
  - intros file0 ac cu consumer0 fuel0 run Hin. subst run.
    destruct (basic_parse buf_size file0 ac cu consumer0 fuel0)
      as [tr out] eqn:Hrun.
    apply basic_parse_inv in Hrun as [(_ & -> & _)|(cfg & rest & -> & Hrun)];
      [contradiction|].
    cbn [fst snd calls] in *. destruct Hin as [H|Hin]; [discriminate|].
    destruct (loop_premature_end _ _ _ _ Hrun Hin) as (-> & before & ->).
    split; [reflexivity|]. now exists (Foreign (Call_alloc cfg) :: before).
Qed.
End Errors.

(** The truncated document [{"a":], read in one piece. *)
Lemma premature_end_raises_witness :
  let run := parse_file Inputs.truncated false false default_buf_size
               Drain 2 in
  yielded (fst run)
  = [("start_map"%string, PyNone); ("map_key"%string, PyStr [x61])]
  /\ snd run = Raised IncompleteJSONError
  /\ malformed (snd run) = false.
Proof.
  pose (cfg := {| allowComments := 0; checkUTF8 := 0 |}).
  pose (h := fst (fst (MiniYajl.parse (MiniYajl.alloc cfg) Inputs.truncated))).
  destruct (@premature_end_raises MiniYajl.recogniser PyFile default_buf_size
              0 Drain [] [] h h []
              ltac:(reflexivity) ltac:(vm_compute; reflexivity)
              ltac:(reflexivity)) as (_ & _ & Hrun).
  specialize (Hrun Inputs.truncated false false Drain 2%nat).
  destruct Hrun as [Hout _].
  - vm_compute. right. right. left. reflexivity.
  - split; [vm_compute; reflexivity|].
    split; [exact Hout|]. unfold parse_file. now rewrite Hout.
Defined.

Lemma status_error_entry (buffer : bytes) (built : list Event) (result : Z)
  (c : FCall) :
  result <> YAJL_ERROR ->
  status_of c = Some YAJL_ERROR ->
  parse_entry buffer built result <> c.
Proof.
  intros Hr Hs <-. destruct (parse_entry_spec buffer built result) as (_ & H & _).
  congruence.
Qed.

Section Malformed.
Context {Y : Recogniser} {F : FileLike}.
Variable buf_size : Z.

Lemma loop_syntax_error (fuel : nat) :
  forall consumer f handle tr out c,
    reader_loop buf_size fuel consumer f handle [] = (tr, out) ->
    In c (calls tr) -> status_of c = Some YAJL_ERROR ->
    exists before buffer handle',
      tr = before ++ [Foreign c; Foreign (Call_get_error buffer);
                      Foreign Call_free_error; Foreign Call_free]
      /\ out = Raised (JSONError (yajl_get_error handle' buffer)).
Proof.
  induction fuel as [|fuel IH]; intros consumer f handle tr out c Hrun Hin Hs.
  - injection Hrun as <- <-. contradiction.
  - apply reader_loop_inv in Hrun.
    destruct Hrun; subst tr; try subst entry; try subst out.
    + simpl in Hin. destruct Hin as [<-|[]]. discriminate.
    + simpl in Hin.
      destruct Hin as [<-|[<-|[<-|[<-|[]]]]]; try discriminate.
      now exists [], buffer, handle'.
    + exfalso. simpl in Hin. destruct Hin as [H|[<-|[]]]; [|discriminate].
      now apply (status_error_entry _ _ Hresult Hs) in H.
    + exfalso. simpl in Hin. rewrite calls_app, calls_yields in Hin.
      destruct Hin as [H|[<-|[]]]; [|discriminate].
      now apply (status_error_entry _ _ Hresult Hs) in H.
    + simpl in Hin. rewrite calls_app, calls_yields in Hin.
      destruct Hin as [H|Hin];
        [now apply (status_error_entry _ _ Hresult Hs) in H|].
      destruct (IH _ _ _ _ _ _ Hrest Hin Hs) as (before & b & h & -> & ->).
      exists (Foreign (parse_entry buffer (run_callbacks [] made) result)
                :: map Yield ys ++ before), b, h.
      simpl. now rewrite <- app_assoc.
Qed.

(** C4. When the parse call of an iteration, on a chunk or at the end
    of the input, returns [YAJL_ERROR], the iteration asks the handle
    it returned for the diagnostic, frees the diagnostic, releases the
    handle, in this order, and raises [JSONError] with the
    diagnostic, which is not empty when the recogniser's diagnostics
    never are. In a run of [basic_parse] a call that returned
    [YAJL_ERROR] is always followed by exactly these three calls and
    nothing else, and the run raises [JSONError] with a diagnostic of
    the recogniser. *)
Theorem syntax_error_raises (fuel : nat) (consumer : Consumer) (f f' : file)
  (handle handle' : yajl_handle) (events : list Event) (buffer : bytes)
  (made : list Invocation)
  (diagnostics : forall h b, yajl_get_error h b <> [])
  (chunk : read f buf_size = Returns (buffer, f'))
  (rejected : (if is_empty buffer then yajl_parse_complete handle
               else yajl_parse handle buffer)
              = (handle', made, YAJL_ERROR)) :
  reader_loop buf_size (S fuel) consumer f handle events
  = ([Foreign (parse_entry buffer (run_callbacks [] made) YAJL_ERROR);
      Foreign (Call_get_error buffer); Foreign Call_free_error;
      Foreign Call_free],
     Raised (JSONError (yajl_get_error handle' buffer)))
  /\ yajl_get_error handle' buffer <> []
  /\ (forall file allow_comments check_utf8 consumer fuel c,
        let run := basic_parse buf_size file allow_comments check_utf8
                     consumer fuel in
        In c (calls (fst run)) -> status_of c = Some YAJL_ERROR ->
        exists before buffer handle',
          fst run = before ++ [Foreign c; Foreign (Call_get_error buffer);
                               Foreign Call_free_error; Foreign Call_free]
          /\ snd run = Raised (JSONError (yajl_get_error handle' buffer))
          /\ yajl_get_error handle' buffer <> []).
Proof.
  split; [|split].
  - cbn [reader_loop]. rewrite chunk, rejected. reflexivity.
  - apply diagnostics.
  - intros file0 ac cu consumer0 fuel0 c run Hin Hs. subst run.
    destruct (basic_parse buf_size file0 ac cu consumer0 fuel0)
      as [tr out] eqn:Hrun.
    apply basic_parse_inv in Hrun as [(_ & -> & _)|(cfg & rest & -> & Hrun)];
      [contradiction|].
    cbn [fst snd calls] in *. destruct Hin as [<-|Hin]; [discriminate|].
    destruct (@loop_syntax_error fuel0 consumer0 file0 (yajl_alloc cfg)
                rest out c Hrun Hin Hs) as (before & b & h & -> & ->).
    exists (Foreign (Call_alloc cfg) :: before), b, h.
    repeat split. apply diagnostics.
Qed.
End Malformed.

Lemma MiniYajl_diagnostics (h : MiniYajl.handle) (b : bytes) :
  MiniYajl.get_error h b <> [].
Proof.
  unfold MiniYajl.get_error.
  destruct (MiniYajl.parseError h) as [msg|];
    intros H; apply app_eq_nil in H as [_ H]; discriminate.
Qed.

(** The invalid document [{"a":}], read in one piece: the diagnostic is
    "parse error: unallowed token at this point in JSON text". *)
Lemma syntax_error_raises_witness :
  let run := parse_file Inputs.invalid false false default_buf_size Drain 2 in
  exists error,
    snd run = Raised (JSONError error)
    /\ error <> []
    /\ error = list_byte_of_string
                 "parse error: unallowed token at this point in JSON text"
               ++ [x0a].
Proof.
  pose (cfg := {| allowComments := 0; checkUTF8 := 0 |}).
  pose (h := fst (fst (MiniYajl.parse (MiniYajl.alloc cfg) Inputs.invalid))).
  destruct (@syntax_error_raises MiniYajl.recogniser PyFile default_buf_size
              1 Drain Inputs.invalid [] (MiniYajl.alloc cfg) h []
              Inputs.invalid
              [(yajl_start_map, []); (yajl_map_key, str_args [x61])]
              MiniYajl_diagnostics
              ltac:(reflexivity) ltac:(vm_compute; reflexivity))
    as (Hloop & Hne & _).
  exists (MiniYajl.get_error h Inputs.invalid).
  split; [|split; [exact Hne|vm_compute; reflexivity]].
  unfold parse_file, basic_parse.
  change (yajl_alloc {| allowComments := Z.b2z false;
                        checkUTF8 := Z.b2z false |})
    with (MiniYajl.alloc cfg).
  now rewrite Hloop.
Defined.

(** ** Release of the handle *)

Lemma inner_parse_entry (buffer : bytes) (built : list Event) (result : Z) :
  inner_call (parse_entry buffer built result) = true.
Proof. unfold parse_entry. now destruct (is_empty buffer). Qed.

Section Release.
Context {Y : Recogniser} {F : FileLike}.
Variable buf_size : Z.

Lemma loop_releases_last (fuel : nat) :
  forall consumer f handle events tr out,
    reader_loop buf_size fuel consumer f handle events = (tr, out) ->
    out <> Running ->
    exists middle,
      calls tr = middle ++ [Call_free]
      /\ forallb inner_call middle = true.
Proof.
  induction fuel as [|fuel IH];
    intros consumer f handle events tr out Hrun Hout.
  - injection Hrun as <- <-. contradiction.
  - apply reader_loop_inv in Hrun.
    destruct Hrun; subst tr; try subst entry; try subst out.
    + exists []. split; reflexivity.
    + exists [parse_entry buffer (run_callbacks [] made) YAJL_ERROR;
              Call_get_error buffer; Call_free_error].
      split; [reflexivity|]. cbn [forallb].
      now rewrite inner_parse_entry.
    + exists [parse_entry [] (run_callbacks [] made) result].
      split; [reflexivity|]. cbn [forallb].
      now rewrite inner_parse_entry.
    + exists [parse_entry buffer (run_callbacks [] made) result].
      split.
      * cbn [calls]. now rewrite calls_app, calls_yields.
      * cbn [forallb]. now rewrite inner_parse_entry.
    + destruct (IH _ _ _ _ _ _ Hrest Hout) as (middle & Hc & Hm).
      exists (parse_entry buffer (run_callbacks [] made) result :: middle).
      split.
      * cbn [calls]. now rewrite calls_app, calls_yields, Hc.
      * cbn [forallb]. now rewrite Hm, inner_parse_entry.
Qed.

Lemma loop_closed_after (fuel : nat) :
  forall n f handle events tr,
    reader_loop buf_size fuel (Take n) f handle events = (tr, Closed) ->
    List.length (yielded tr) = n.
Proof.
  induction fuel as [|fuel IH]; intros n f handle events tr Hrun.
  - discriminate.
  - apply reader_loop_inv in Hrun.
    destruct Hrun; subst tr;
      try discriminate;
      try (destruct (result =? YAJL_INSUFFICIENT_DATA); discriminate).
    + simpl. rewrite yielded_app, yielded_yields. simpl.
      rewrite app_nil_r. unfold for_yield in Hfor.
      destruct (List.length (run_callbacks events made) <? n)%nat eqn:Hlt;
        [discriminate|].
      injection Hfor as <-. apply Nat.ltb_ge in Hlt.
      now apply firstn_length_le.
    + simpl. rewrite yielded_app, yielded_yields. unfold for_yield in Hfor.
      destruct (List.length (run_callbacks events made) <? n)%nat eqn:Hlt;
        [|discriminate].
      injection Hfor as <- <-. apply Nat.ltb_lt in Hlt.
      rewrite length_app, (IH _ _ _ _ _ Hrest). lia.
Qed.

(** C7. A run of [basic_parse] that has ended, by returning, by
    raising (the malformed-input error, the premature-end error, or an
    exception of the input's [read]), or by the consumer abandoning the
    generator after any number of events, has either made no call at
    all (the consumer left before asking for anything, so no handle
    was allocated) or has allocated the handle first and released it
    last, with no other allocation or release in between: one release,
    and no call after it. A consumer that asks for [n] events and
    leaves has got [n] events when the run ends closed. *)
Theorem released_exactly_once (f : file) (allow_comments check_utf8 : bool)
  (consumer : Consumer) (fuel : nat) :
  let run := basic_parse buf_size f allow_comments check_utf8 consumer fuel in
  snd run <> Running ->
  ((consumer = Take 0 /\ fst run = [])
   \/ (exists config middle,
         calls (fst run) = Call_alloc config :: middle ++ [Call_free]
         /\ forallb inner_call middle = true))
  /\ (forall n, consumer = Take n -> snd run = Closed ->
      List.length (yielded (fst run)) = n).
Proof.
  intros run Hout. subst run.
  destruct (basic_parse buf_size f allow_comments check_utf8 consumer fuel)
    as [tr out] eqn:Hrun.
  apply basic_parse_inv in Hrun as [(-> & -> & ->)|(cfg & rest & -> & Hrun)];
    cbn [fst snd] in *.
  - split; [now left|]. now intros n [= <-] _.
  - split.
    + right. destruct (loop_releases_last _ _ _ _ _ Hrun Hout)
        as (middle & Hc & Hm).
      exists cfg, middle. simpl. now rewrite Hc.
    + intros n -> ->. simpl. now apply (loop_closed_after _ _ _ _ _ Hrun).
Qed.
End Release.

(** The sample document read one byte at a time by a consumer that
    leaves after the first event. *)
Lemma released_exactly_once_witness :
  let run := parse_file Inputs.sample false false 1 (Take 1) 30 in
  snd run = Closed
  /\ yielded (fst run) = [("start_array"%string, PyNone)]
  /\ exists config middle,
       calls (fst run) = Call_alloc config :: middle ++ [Call_free]
       /\ forallb inner_call middle = true.
Proof.
  intros run.
  assert (Hout : snd run <> Running) by (vm_compute; discriminate).
  destruct (@released_exactly_once MiniYajl.recogniser PyFile 1 Inputs.sample
              false false (Take 1) 30 Hout) as [[[H _]|H] _];
    [discriminate|].
  split; [vm_compute; reflexivity|]. split; [vm_compute; reflexivity|].
  exact H.
Defined.

(** An input whose second [read] raises: the event of the first piece
    is yielded, the handle is released, and the exception is the
    outcome. *)
Lemma released_when_read_raises :
  basic_parse (Y := MiniYajl.recogniser) (F := Scripted) default_buf_size
    [Returns [x5b]; Raises IOError] false false Drain 5
  = ([Foreign (Call_alloc {| allowComments := 0; checkUTF8 := 0 |});
      Foreign (Call_parse [x5b] [("start_array"%string, PyNone)]
                 YAJL_INSUFFICIENT_DATA);
      Yield ("start_array"%string, PyNone);
      Foreign Call_free],
     Raised IOError).
Proof. reflexivity. Qed.

(** ** The input is seen through its reads *)

Section SameReads.
Context {Y : Recogniser}.
Variables F1 F2 : FileLike.
Variable buf_size : Z.

Lemma same_reads_step (f1 : @file F1) (f2 : @file F2) :
  (forall n, reads (F := F1) n f1 buf_size = reads (F := F2) n f2 buf_size) ->
  match @read F1 f1 buf_size, @read F2 f2 buf_size with
  | Returns (b1, f1'), Returns (b2, f2') =>
      b1 = b2
      /\ forall n,
           reads (F := F1) n f1' buf_size = reads (F := F2) n f2' buf_size
  | Raises x1, Raises x2 => x1 = x2
  | _, _ => False
  end.
Proof.
  intros H.
  destruct (@read F1 f1 buf_size) as [[b1 f1']|x1] eqn:E1,
           (@read F2 f2 buf_size) as [[b2 f2']|x2] eqn:E2.
  - split.
    + specialize (H 1%nat). cbn [reads] in H. rewrite E1, E2 in H.
      now injection H.
    + intros n. specialize (H (S n)). cbn [reads] in H.
      rewrite E1, E2 in H. now injection H.
  - specialize (H 1%nat). cbn [reads] in H. rewrite E1, E2 in H.
    discriminate.
  - specialize (H 1%nat). cbn [reads] in H. rewrite E1, E2 in H.
    discriminate.
  - specialize (H 1%nat). cbn [reads] in H. rewrite E1, E2 in H.
    now injection H.
Qed.

Lemma loop_same_reads (fuel : nat) :
  forall consumer (f1 : @file F1) (f2 : @file F2) handle events,
    (forall n,
       reads (F := F1) n f1 buf_size = reads (F := F2) n f2 buf_size) ->
    reader_loop (F := F1) buf_size fuel consumer f1 handle events
    = reader_loop (F := F2) buf_size fuel consumer f2 handle events.
Proof.
  induction fuel as [|fuel IH]; intros consumer f1 f2 handle events H;
    [reflexivity|].
  pose proof (same_reads_step f1 f2 H) as Hstep.
  cbn [reader_loop]. revert Hstep.
  destruct (@read F1 f1 buf_size) as [[b1 f1']|x1],
           (@read F2 f2 buf_size) as [[b2 f2']|x2];
    try contradiction; [|now intros ->].
  intros [<- Hrest].
  destruct (if is_empty b1 then yajl_parse_complete handle
            else yajl_parse handle b1) as [[handle' made] result].
  destruct (result =? YAJL_ERROR); [reflexivity|].
  destruct (is_empty b1 && is_empty (run_callbacks events made));
    [reflexivity|].
  destruct (for_yield consumer (run_callbacks events made))
    as [ys [consumer'|]]; [|reflexivity].
  now rewrite (IH consumer' f1' f2' handle' [] Hrest).
Qed.

End SameReads.

(** ** Chunk size *)

(** C6 as stated fails: the input [[1,}] read one byte at a time yields
    two events before the malformed-input error, and read in one piece
    yields none. *)
Lemma chunk_size_changes_events :
  let small := parse_file Inputs.late_error false false 1 Drain 6 in
  let large := parse_file Inputs.late_error false false default_buf_size
                 Drain 6 in
  yielded (fst small)
  = [("start_array"%string, PyNone); ("number"%string, PyInt 1)]
  /\ yielded (fst large) = []
  /\ malformed (snd small) = true /\ malformed (snd large) = true
  /\ yielded (fst small) <> yielded (fst large).
Proof.
  vm_compute. repeat split. discriminate.
Qed.

Section Fuel.
Context {Y : Recogniser} {F : FileLike}.
Variable buf_size : Z.

(** A run that has ended is not changed by more fuel. *)
Lemma reader_loop_more_fuel (fuel : nat) :
  forall consumer f handle events tr out extra,
    reader_loop buf_size fuel consumer f handle events = (tr, out) ->
    out <> Running ->
    reader_loop buf_size (fuel + extra) consumer f handle events = (tr, out).
Proof.
  induction fuel as [|fuel IH];
    intros consumer f handle events tr out extra Hrun Hout.
  - injection Hrun as <- <-. contradiction.
  - cbn [reader_loop Nat.add] in *.
    destruct (read f buf_size) as [[buffer f']|x]; [|assumption].
    destruct (if is_empty buffer then yajl_parse_complete handle
              else yajl_parse handle buffer) as [[handle' made] result].
    destruct (result =? YAJL_ERROR); [assumption|].
    destruct (is_empty buffer && is_empty (run_callbacks events made));
      [assumption|].
    destruct (for_yield consumer (run_callbacks events made))
      as [ys [consumer'|]]; [|assumption].
    destruct (reader_loop buf_size fuel consumer' f' handle' [])
      as [rest out'] eqn:Hrest.
    injection Hrun as <- <-.
    now rewrite (IH _ _ _ _ _ _ extra Hrest Hout).
Qed.

Lemma reader_loop_enough (fuel fuel' : nat) consumer f handle events tr out :
  reader_loop buf_size fuel consumer f handle events = (tr, out) ->
  out <> Running -> (fuel <= fuel')%nat ->
  reader_loop buf_size fuel' consumer f handle events = (tr, out).
Proof.
  intros Hrun Hout Hle.
  replace fuel' with (fuel + (fuel' - fuel))%nat by lia.
  now apply reader_loop_more_fuel.
Qed.
End Fuel.

Lemma file_read_empty (size : Z) : file_read [] size = ([], []).
Proof.
  unfold file_read. destruct (size <? 0); [reflexivity|].
  now rewrite firstn_nil, skipn_nil.
Qed.

(** Reading a positive number of bytes from a file that has some left
    gives a piece that is not empty and leaves fewer bytes. *)
Lemma file_read_chunk (content : bytes) (size : Z) :
  0 < size -> content <> [] ->
  exists piece rest,
    file_read content size = (piece, rest)
    /\ piece <> [] /\ content = piece ++ rest
    /\ (List.length rest < List.length content)%nat.
Proof.
  intros Hsize Hne. unfold file_read.
  destruct (size <? 0) eqn:Hneg; [apply Z.ltb_lt in Hneg; lia|].
  exists (firstn (Z.to_nat size) content), (skipn (Z.to_nat size) content).
  split; [reflexivity|].
  destruct content as [|b content]; [contradiction|].
  destruct (Z.to_nat size) as [|n] eqn:Hn; [lia|].
  split; [discriminate|]. split.
  - now rewrite firstn_skipn.
  - rewrite length_skipn. simpl. lia.
Qed.

Section EndOfInput.
Context {Y : Recogniser}.

(** Once the file is exhausted the size asked for plays no part. *)
Lemma exhausted_any_size (a b : Z) (fuel : nat) :
  forall consumer handle events,
    reader_loop (F := PyFile) a fuel consumer [] handle events
    = reader_loop (F := PyFile) b fuel consumer [] handle events.
Proof.
  induction fuel as [|fuel IH]; intros consumer handle events;
    [reflexivity|].
  cbn [reader_loop]. change (@read PyFile) with pyfile_read. unfold pyfile_read.
  rewrite !file_read_empty. cbn [is_empty].
  destruct (yajl_parse_complete handle) as [[handle' made] result].
  destruct (result =? YAJL_ERROR); [reflexivity|].
  destruct (true && is_empty (run_callbacks events made)); [reflexivity|].
  destruct (for_yield consumer (run_callbacks events made))
    as [ys [consumer'|]]; [|reflexivity].
  now rewrite IH.
Qed.

(** With a recogniser that flushes once, two iterations end the run of
    an exhausted file. *)
Lemma exhausted_ends `{!Quiet Y} (size : Z) (handle : yajl_handle) :
  snd (reader_loop (F := PyFile) size 2 Drain [] handle []) <> Running.
Proof.
  cbn [reader_loop]. change (@read PyFile) with pyfile_read. unfold pyfile_read.
  rewrite !file_read_empty. cbn [is_empty].
  destruct (yajl_parse_complete handle) as [[h1 made1] r1] eqn:H1.
  destruct (r1 =? YAJL_ERROR); [discriminate|].
  destruct (true && is_empty (run_callbacks [] made1)).
  { destruct (r1 =? YAJL_INSUFFICIENT_DATA); discriminate. }
  cbn [for_yield].
  destruct (complete_twice _ H1) as (h2 & r2 & ->).
  cbn [run_callbacks fold_left is_empty andb].
  destruct (r2 =? YAJL_ERROR); [discriminate|].
  destruct (r2 =? YAJL_INSUFFICIENT_DATA); discriminate.
Qed.
End EndOfInput.

Section Chunks.
Context {Y : Recogniser} `{!Streaming Y}.
Variable size : Z.
Hypothesis positive : 0 < size.

Lemma nonempty_not_empty (s : bytes) : s <> [] -> is_empty s = false.
Proof. now destruct s. Qed.

(** Feeding a file in pieces of [size] bytes, when the recogniser
    accepts its content as one buffer: the loop yields the events of
    that one call and goes on as from an exhausted file, with the
    handle in the state that call leaves it in. *)
Lemma pieces_as_whole (len : nat) :
  forall content handle handle' made result,
    (List.length content <= len)%nat -> content <> [] ->
    yajl_parse handle content = (handle', made, result) ->
    result <> YAJL_ERROR ->
    exists m tr,
      (m <= List.length content)%nat
      /\ yielded tr = run_callbacks [] made
      /\ forall k,
           reader_loop (F := PyFile) size (m + k) Drain content handle []
           = (tr ++ fst (reader_loop (F := PyFile) size k Drain []
                           handle' []),
              snd (reader_loop (F := PyFile) size k Drain [] handle' [])).
Proof.
  induction len as [|len IH];
    intros content handle handle' made result Hlen Hne Hparse Hok.
  { destruct content; [contradiction|simpl in Hlen; lia]. }
  destruct (file_read_chunk positive Hne)
    as (piece & rest & Hread & Hpiece & Hcontent & Hshorter).
  destruct rest as [|r0 rest'].
  - rewrite app_nil_r in Hcontent. subst piece.
    exists 1%nat,
      (Foreign (parse_entry content (run_callbacks [] made) result)
         :: map Yield (run_callbacks [] made)).
    split; [destruct content; [contradiction|simpl; lia]|].
    split; [simpl; apply yielded_yields|].
    intros k. cbn [Nat.add reader_loop].
    change (@read PyFile) with pyfile_read. unfold pyfile_read. rewrite Hread.
    rewrite (nonempty_not_empty Hne), Hparse.
    apply Z.eqb_neq in Hok. rewrite Hok. cbn [andb for_yield].
    destruct (reader_loop (F := PyFile) size k Drain [] handle' [])
      as [rest out].
    reflexivity.
  - set (rest := r0 :: rest') in *.
    assert (Hrest : rest <> []) by discriminate.
    destruct (yajl_parse handle piece) as [[h1 c1] s1] eqn:H1.
    destruct (Z.eq_dec s1 YAJL_ERROR) as [->|Hs1].
    { pose proof (@parse_error_first Y _ handle piece rest h1 c1 Hpiece Hrest H1) as Hbad.
      rewrite <- Hcontent, Hparse in Hbad. contradiction. }
    destruct (yajl_parse h1 rest) as [[h2 c2] s2] eqn:H2.
    destruct (Z.eq_dec s2 YAJL_ERROR) as [->|Hs2].
    { pose proof (@parse_error_second Y _ handle piece rest h1 c1 s1 h2 c2
                    Hpiece Hrest H1 Hs1 H2) as Hbad.
      rewrite <- Hcontent, Hparse in Hbad. contradiction. }
    pose proof (@parse_app Y _ handle piece rest h1 c1 s1 h2 c2 s2
                  Hpiece Hrest H1 Hs1 H2 Hs2) as Hwhole.
    rewrite <- Hcontent, Hparse in Hwhole.
    injection Hwhole as -> -> ->.
    destruct (IH rest h1 h2 c2 s2 ltac:(lia) Hrest H2 Hs2)
      as (m & tr & Hm & Hy & Hk).
    exists (S m),
      (Foreign (parse_entry piece (run_callbacks [] c1) s1)
         :: map Yield (run_callbacks [] c1) ++ tr).
    split; [lia|]. split.
    { simpl. now rewrite yielded_app, yielded_yields, Hy,
        run_callbacks_app. }
    intros k. cbn [Nat.add reader_loop].
    change (@read PyFile) with pyfile_read. unfold pyfile_read. rewrite Hread.
    rewrite (nonempty_not_empty Hpiece), H1.
    apply Z.eqb_neq in Hs1. rewrite Hs1. cbn [andb for_yield].
    rewrite Hk. cbn [fst snd app]. now rewrite app_assoc.
Qed.

(** When the recogniser rejects the content as one buffer, it rejects
    one of the pieces, and the loop raises the malformed-input
    error. *)
Lemma pieces_rejected (len : nat) :
  forall content handle,
    (List.length content <= len)%nat -> content <> [] ->
    snd (yajl_parse handle content) = YAJL_ERROR ->
    exists m tr error,
      (m <= List.length content)%nat
      /\ forall k,
           reader_loop (F := PyFile) size (m + k) Drain content handle []
           = (tr, Raised (JSONError error)).
Proof.
  induction len as [|len IH]; intros content handle Hlen Hne Hbad.
  { destruct content; [contradiction|simpl in Hlen; lia]. }
  destruct (file_read_chunk positive Hne)
    as (piece & rest & Hread & Hpiece & Hcontent & Hshorter).
  assert (Hone : (1 <= List.length content)%nat)
    by (destruct content; [contradiction|simpl; lia]).
  destruct (yajl_parse handle piece) as [[h1 c1] s1] eqn:H1.
  destruct (Z.eq_dec s1 YAJL_ERROR) as [->|Hs1].
  - exists 1%nat. eexists. eexists. split; [exact Hone|].
    intros k. cbn [Nat.add reader_loop].
    change (@read PyFile) with pyfile_read. unfold pyfile_read. rewrite Hread.
    rewrite (nonempty_not_empty Hpiece), H1. reflexivity.
  - destruct rest as [|r0 rest'].
    { rewrite app_nil_r in Hcontent. subst piece.
      rewrite H1 in Hbad. contradiction. }
    set (rest := r0 :: rest') in *.
    assert (Hrest : rest <> []) by discriminate.
    destruct (yajl_parse h1 rest) as [[h2 c2] s2] eqn:H2.
    destruct (Z.eq_dec s2 YAJL_ERROR) as [->|Hs2].
    + destruct (IH rest h1 ltac:(lia) Hrest ltac:(now rewrite H2))
        as (m & tr & error & Hm & Hk).
      exists (S m). eexists. exists error. split; [lia|].
      intros k. cbn [Nat.add reader_loop].
      change (@read PyFile) with pyfile_read. unfold pyfile_read. rewrite Hread.
      rewrite (nonempty_not_empty Hpiece), H1.
      apply Z.eqb_neq in Hs1. rewrite Hs1. cbn [andb for_yield].
      rewrite Hk. reflexivity.
    + pose proof (@parse_app Y _ handle piece rest h1 c1 s1 h2 c2 s2
                  Hpiece Hrest H1 Hs1 H2 Hs2) as Hwhole.
      rewrite <- Hcontent in Hwhole. rewrite Hwhole in Hbad.
      contradiction.
Qed.
End Chunks.

Section ChunkSize.
Context {Y : Recogniser} `{!Streaming Y} `{!Quiet Y}.

Lemma accepted_run (size : Z) (content : bytes) (handle : yajl_handle)
  (fuel : nat) :
  0 < size -> (List.length content + 2 <= fuel)%nat ->
  accepted handle content ->
  let ending :=
    reader_loop (F := PyFile) 0 2 Drain []
      (fst (after_content handle content)) [] in
  exists tr,
    reader_loop (F := PyFile) size fuel Drain content handle []
    = (tr, snd ending)
    /\ yielded tr = snd (after_content handle content) ++ yielded (fst ending)
    /\ snd ending <> Running.
Proof.
  intros Hsize Hfuel Hacc ending. unfold after_content in *.
  assert (Hend : snd ending <> Running) by apply exhausted_ends.
  destruct content as [|b0 content'].
  - cbn [is_empty fst snd] in *. exists (fst ending).
    split; [|split; [reflexivity|exact Hend]].
    apply reader_loop_enough with (fuel := 2%nat); [|exact Hend|lia].
    rewrite (exhausted_any_size size 0). subst ending.
    now destruct (reader_loop (F := PyFile) 0 2 Drain [] handle []).
  - set (content := b0 :: content') in *.
    assert (Hne : content <> []) by discriminate.
    destruct Hacc as [Hacc|Hacc]; [contradiction|].
    cbn [is_empty] in *.
    destruct (yajl_parse handle content) as [[h' made] result] eqn:Hparse.
    cbn [fst snd] in *.
    destruct (@pieces_as_whole Y _ size Hsize (List.length content) content
                handle h' made result (le_n _) Hne Hparse Hacc)
      as (m & tr & Hm & Hy & Hk).
    specialize (Hk 2%nat). rewrite (exhausted_any_size size 0) in Hk.
    fold ending in Hk.
    exists (tr ++ fst ending). split; [|split; [|exact Hend]].
    + apply reader_loop_enough with (fuel := (m + 2)%nat);
        [exact Hk|exact Hend|lia].
    + now rewrite yielded_app, Hy.
Qed.

Lemma rejected_run (size : Z) (content : bytes) (handle : yajl_handle)
  (fuel : nat) :
  0 < size -> (List.length content + 2 <= fuel)%nat ->
  ~ accepted handle content ->
  exists tr error,
    reader_loop (F := PyFile) size fuel Drain content handle []
    = (tr, Raised (JSONError error)).
Proof.
  intros Hsize Hfuel Hrej.
  assert (Hne : content <> []) by (intros ->; apply Hrej; now left).
  assert (Hbad : snd (yajl_parse handle content) = YAJL_ERROR).
  { destruct (Z.eq_dec (snd (yajl_parse handle content)) YAJL_ERROR);
      [assumption|]. exfalso. apply Hrej. now right. }
  destruct (@pieces_rejected Y _ size Hsize (List.length content) content
              handle (le_n _) Hne Hbad)
    as (m & tr & error & Hm & Hk).
  exists tr, error. specialize (Hk 0%nat).
  apply reader_loop_enough with (fuel := (m + 0)%nat);
    [exact Hk|discriminate|lia].
Qed.

Lemma accepted_dec (handle : yajl_handle) (content : bytes) :
  accepted handle content \/ ~ accepted handle content.
Proof.
  unfold accepted. destruct content as [|b content]; [now left; left|].
  destruct (Z.eq_dec (snd (yajl_parse handle (b :: content))) YAJL_ERROR)
    as [H|H].
  - right. intros [H'|H']; [discriminate|contradiction].
  - left. now right.
Qed.

(** C6, as the code has it. The recogniser works on a stream and
    flushes once; the file is read with two positive chunk sizes;
    each run has fuel for one iteration per byte and two more. Then
    both runs end, and either both raise the malformed-input error or
    neither does. When the recogniser accepts the content as one
    buffer, the two runs yield the same events and end the same way
    (also when the end-of-input call then fails). In particular, when
    one run does not raise the malformed-input error, the other
    yields the same events and ends the same way. When both raise it
    after a rejected chunk, the events yielded before are those of the
    chunks before the rejected one, which depends on the chunk
    size. *)
Theorem chunk_size_irrelevant_when_accepted (content : bytes)
  (allow_comments check_utf8 : bool) (a b : Z) (fuel_a fuel_b : nat)
  (positive_a : 0 < a) (positive_b : 0 < b)
  (enough_a : (List.length content + 2 <= fuel_a)%nat)
  (enough_b : (List.length content + 2 <= fuel_b)%nat) :
  let config := {| allowComments := Z.b2z allow_comments;
                   checkUTF8 := Z.b2z check_utf8 |} in
  let small := basic_parse (F := PyFile) a content allow_comments
                 check_utf8 Drain fuel_a in
  let large := basic_parse (F := PyFile) b content allow_comments
                 check_utf8 Drain fuel_b in
  snd small <> Running /\ snd large <> Running
  /\ malformed (snd small) = malformed (snd large)
  /\ (accepted (yajl_alloc config) content ->
      yielded (fst small) = yielded (fst large) /\ snd small = snd large)
  /\ (malformed (snd small) = false ->
      yielded (fst small) = yielded (fst large) /\ snd small = snd large).
Proof.
  intros config small large. subst small large. unfold basic_parse.
  fold config.
  destruct (accepted_dec (yajl_alloc config) content) as [Hacc|Hrej].
  - destruct (@accepted_run a content (yajl_alloc config) fuel_a
                positive_a enough_a Hacc)
      as (tra & -> & Hya & Hend).
    destruct (@accepted_run b content (yajl_alloc config) fuel_b
                positive_b enough_b Hacc) as (trb & -> & Hyb & _).
    cbn [fst snd yielded]. rewrite Hya, Hyb. repeat split; assumption.
  - destruct (@rejected_run a content (yajl_alloc config) fuel_a
                positive_a enough_a Hrej)
      as (tra & ea & ->).
    destruct (@rejected_run b content (yajl_alloc config) fuel_b
                positive_b enough_b Hrej)
      as (trb & eb & ->).
    cbn [fst snd malformed]. repeat split; try discriminate.
    all: intros; contradiction || discriminate.
Qed.
End ChunkSize.

(** ** The recogniser of the examples works on a stream and flushes once *)

Module MiniYajlFacts.
Import MiniYajl.

Lemma feed_app (a b : bytes) :
  forall h,
    feed h (a ++ b)
    = (fst (feed (fst (feed h a)) b),
       snd (feed h a) ++ snd (feed (fst (feed h a)) b)).
Proof.
  induction a as [|x a IH]; intros h; cbn [feed app fst snd].
  - now destruct (feed h b).
  - destruct (step_byte h x) as [h1 m1]. rewrite IH.
    destruct (feed h1 a) as [h2 m2]. cbn [fst snd].
    destruct (feed h2 b) as [h3 m3]. cbn [fst snd].
    now rewrite app_assoc.
Qed.

Lemma feed_failed (buffer : bytes) :
  forall h, failed h = true -> feed h buffer = (h, []).
Proof.
  induction buffer as [|x buffer IH]; intros h Hf; cbn [feed];
    [reflexivity|].
  unfold step_byte. rewrite Hf. cbn [orb]. now rewrite (IH h Hf).
Qed.

Lemma status_error (h : handle) : status h = YAJL_ERROR <-> failed h = true.
Proof.
  unfold status. destruct (failed h); [now split|].
  destruct (complete h); split; discriminate.
Qed.

Lemma parse_feed (h : handle) (buffer : bytes) :
  parse h buffer
  = (fst (feed h buffer), snd (feed h buffer), status (fst (feed h buffer))).
Proof. unfold parse. now destruct (feed h buffer). Qed.

#[export] Instance streaming : Streaming recogniser.
Proof.
  constructor; cbn [yajl_parse recogniser yajl_handle].
  - intros h a b h1 c1 s1 h2 c2 s2 _ _ H1 _ H2 _.
    rewrite parse_feed in *. injection H1 as <- <- <-.
    injection H2 as <- <- <-. now rewrite feed_app.
  - intros h a b h1 c1 _ _ H1.
    rewrite parse_feed in *. injection H1 as <- <- Hs.
    apply status_error in Hs. rewrite feed_app. cbn [fst snd].
    rewrite (feed_failed b _ Hs). cbn [fst]. now apply status_error.
  - intros h a b h1 c1 s1 h2 c2 _ _ H1 _ H2.
    rewrite parse_feed in *. injection H1 as <- <- <-.
    injection H2 as <- <- Hs. rewrite feed_app. exact Hs.
Qed.

Lemma settled_quiet (h : handle) :
  settled h = true -> snd (step_byte h x20) = [].
Proof.
  unfold settled, step_byte.
  destruct (failed h || complete h); [reflexivity|]. cbn [orb].
  destruct (lexer h) as [|ph acc|acc [|p] [|]|l seen| | |star];
    try discriminate; intros _;
    try destruct star; reflexivity.
Qed.

Lemma parse_one_settles (cfg : Config) (stack : list pstate) (t : tok) :
  let '(stack', made, syntactic) := parse_toks stack [t] in
  forall h,
    h = match syntactic with
        | Some msg =>
            {| config := cfg; stateStack := st_parse_error :: stack';
               lexer := lex_start;
               parseError := Some (String.append "parse error: " msg) |}
        | None =>
            {| config := cfg; stateStack := stack'; lexer := lex_start;
               parseError := None |}
        end ->
    settled h = true.
Proof.
  destruct (parse_toks stack [t]) as [[stack' made] [msg|]];
    intros h ->; unfold settled, failed, complete; cbn;
    [reflexivity|now rewrite orb_true_r].
Qed.

Lemma space_settles (h : handle) : settled (fst (step_byte h x20)) = true.
Proof.
  unfold step_byte.
  destruct (failed h || complete h) eqn:Hfc.
  { unfold settled. cbn [fst]. now rewrite Hfc. }
  destruct (lexer h) as [|ph acc|acc [|p] [|]|l seen| | |star] eqn:Hlex;
    cbn [lex_byte].
  - cbn. unfold settled. cbn. now rewrite orb_true_r.
  - destruct ph; cbn [number_byte]; cbn -[parse_toks];
      try (unfold settled; reflexivity).
    all: pose proof (parse_one_settles (config h) (stateStack h)
                       (tok_number acc)) as Hp.
    all: destruct (parse_toks (stateStack h) [tok_number acc])
           as [[stack' made] [msg|]]; cbn [fst]; now apply Hp.
  - cbn. unfold settled. reflexivity.
  - cbn. unfold settled. cbn. now rewrite orb_true_r.
  - cbn. unfold settled. reflexivity.
  - cbn. unfold settled. reflexivity.
  - destruct l; do 5 (destruct seen as [|seen]; try reflexivity).
  - cbn. unfold settled. reflexivity.
  - cbn. unfold settled. cbn. now rewrite orb_true_r.
  - destruct star; cbn; unfold settled; cbn; now rewrite orb_true_r.
Qed.

#[export] Instance quiet : Quiet recogniser.
Proof.
  constructor. cbn [yajl_parse_complete recogniser yajl_handle].
  intros h h1 c1 s1 H1. rewrite parse_feed in H1. cbn [feed] in H1.
  destruct (step_byte h x20) as [hx mx] eqn:Hstep.
  cbn [fst snd] in H1. injection H1 as <- _ _.
  pose proof (space_settles h) as Hs. rewrite Hstep in Hs. cbn [fst] in Hs.
  apply settled_quiet in Hs.
  exists (fst (step_byte hx x20)), (status (fst (step_byte hx x20))).
  unfold parse. cbn [feed].
  destruct (step_byte hx x20) as [hy my]. cbn [fst snd] in *.
  now subst my.
Qed.
End MiniYajlFacts.

(** The sample document [[1, "x", {"k": true}]], one byte at a time and
    in one piece: the same eight events, and both runs return. *)
Lemma chunk_size_irrelevant_when_accepted_witness :
  let small := parse_file Inputs.sample false false 1 Drain 23 in
  let large := parse_file Inputs.sample false false default_buf_size
                 Drain 23 in
  yielded (fst small) = yielded (fst large)
  /\ snd small = snd large
  /\ snd large = Exhausted
  /\ List.length (yielded (fst large)) = 8%nat.
Proof.
  intros small large.
  destruct (@chunk_size_irrelevant_when_accepted MiniYajl.recogniser
              MiniYajlFacts.streaming MiniYajlFacts.quiet Inputs.sample
              false false 1 default_buf_size 23 23
              ltac:(reflexivity) ltac:(reflexivity)
              ltac:(vm_compute; lia) ltac:(vm_compute; lia))
    as (_ & _ & _ & Hacc & _).
  destruct Hacc as [Hy Ho]; [right; vm_compute; discriminate|].
  split; [exact Hy|]. split; [exact Ho|].
  split; vm_compute; reflexivity.
Defined.

(* ================================================================= *)
(** * Further properties *)

(** ** The lazy sequence *)

Section Lazy.
Context {Y : Recogniser} {F : FileLike}.
Variable buf_size : Z.

Lemma loop_take_prefix (fuel : nat) :
  forall n f handle events,
    let taken := fst (reader_loop buf_size fuel (Take n) f handle events) in
    let whole := fst (reader_loop buf_size fuel Drain f handle events) in
    yielded taken = firstn n (yielded whole)
    /\ (calls taken = calls whole
        \/ exists shared later,
             calls taken = shared ++ [Call_free]
             /\ calls whole = shared ++ later).
Proof.
  induction fuel as [|fuel IH]; intros n f handle events.
  - cbn. rewrite firstn_nil. split; [reflexivity|now left].
  - cbn [reader_loop].
    destruct (read f buf_size) as [[buffer f']|x];
      [|cbn; rewrite firstn_nil; split; [reflexivity|now left]].
    destruct (if is_empty buffer then yajl_parse_complete handle
              else yajl_parse handle buffer) as [[handle' made] result].
    destruct (result =? YAJL_ERROR);
      [cbn; rewrite firstn_nil; split; [reflexivity|now left]|].
    destruct (is_empty buffer && is_empty (run_callbacks events made)).
    { destruct (result =? YAJL_INSUFFICIENT_DATA);
        cbn; rewrite firstn_nil; (split; [reflexivity|now left]). }
    set (evs := run_callbacks events made).
    set (entry := parse_entry buffer (run_callbacks [] made) result).
    cbn [for_yield].
    specialize (IH (n - List.length evs)%nat f' handle' []).
    destruct (reader_loop buf_size fuel Drain f' handle' [])
      as [rest_d out_d].
    destruct (List.length evs <? n)%nat eqn:Hlt.
    + apply Nat.ltb_lt in Hlt.
      destruct (reader_loop buf_size fuel (Take (n - List.length evs))
                  f' handle' []) as [rest_t out_t].
      cbn [fst snd yielded calls] in *.
      rewrite !yielded_app, !yielded_yields, !calls_app, !calls_yields.
      destruct IH as [Hy Hc]. split.
      * rewrite Hy, firstn_app.
        assert (firstn n evs = evs) as -> by (apply firstn_all2; lia).
        reflexivity.
      * cbn [app]. destruct Hc as [->|(shared & later & -> & ->)];
          [now left|].
        right. now exists (entry :: shared), later.
    + apply Nat.ltb_ge in Hlt.
      cbn [fst snd yielded calls].
      rewrite !yielded_app, !yielded_yields, !calls_app, !calls_yields.
      split.
      * cbn [yielded]. rewrite app_nil_r, firstn_app.
        replace (n - List.length evs)%nat with 0%nat by lia.
        now rewrite firstn_O, app_nil_r.
      * right. exists [entry], (calls rest_d). split; reflexivity.
Qed.

(** X1. A consumer that takes [n] events and abandons the generator has
    seen the first [n] events of the sequence that a consumer iterating
    to the end (with the same fuel) sees, and the calls made into the
    recogniser for it are the same calls, or an initial part of them
    followed by the release: nothing is parsed for events that are not
    asked for beyond the chunk in progress. *)
Theorem abandoned_run_is_prefix (f : file) (allow_comments check_utf8 : bool)
  (n fuel : nat) :
  let taken := fst (basic_parse buf_size f allow_comments check_utf8
                      (Take n) fuel) in
  let whole := fst (basic_parse buf_size f allow_comments check_utf8
                      Drain fuel) in
  yielded taken = firstn n (yielded whole)
  /\ (n <> 0%nat ->
      calls taken = calls whole
      \/ exists shared later,
           calls taken = shared ++ [Call_free]
           /\ calls whole = shared ++ later).
Proof.
  unfold basic_parse.
  set (config := {| allowComments := Z.b2z allow_comments;
                    checkUTF8 := Z.b2z check_utf8 |}).
  destruct n as [|n]; [cbn; split; [reflexivity|contradiction]|].
  pose proof (loop_take_prefix fuel (S n) f (yajl_alloc config) []) as H.
  cbv zeta in H.
  destruct (reader_loop buf_size fuel (Take (S n)) f (yajl_alloc config) [])
    as [rest_t out_t].
  destruct (reader_loop buf_size fuel Drain f (yajl_alloc config) [])
    as [rest_d out_d].
  cbn [fst snd yielded calls] in *. destruct H as [Hy Hc].
  split; [exact Hy|]. intros _.
  destruct Hc as [->|(shared & later & -> & ->)]; [now left|].
  right. now exists (Call_alloc config :: shared), later.
Qed.

Lemma loop_returns_after_end (fuel : nat) :
  forall consumer f handle tr,
    reader_loop buf_size fuel consumer f handle [] = (tr, Exhausted) ->
    exists before result,
      tr = before ++ [Foreign (Call_parse_complete [] result);
                      Foreign Call_free]
      /\ result <> YAJL_ERROR /\ result <> YAJL_INSUFFICIENT_DATA.
Proof.
  induction fuel as [|fuel IH]; intros consumer f handle tr Hrun.
  - discriminate.
  - apply reader_loop_inv in Hrun.
    destruct Hrun; subst tr; try subst entry; try discriminate.
    + destruct (result =? YAJL_INSUFFICIENT_DATA) eqn:Hins; [discriminate|].
      apply Z.eqb_neq in Hins. exists [], result.
      unfold parse_entry. cbn [is_empty]. rewrite Hevents.
      repeat split; assumption.
    + destruct (IH _ _ _ _ Hrest) as (before & r & -> & Hr).
      exists (Foreign (parse_entry buffer (run_callbacks [] made) result)
                :: map Yield ys ++ before), r.
      split; [|exact Hr]. cbn [app]. now rewrite <- app_assoc.
Qed.

(** X2. The generator returns normally only after an end-of-input
    call: the last parse call of such a run is [yajl_parse_complete],
    its callbacks built no event, and its status is neither
    [YAJL_ERROR] nor [YAJL_INSUFFICIENT_DATA]. Any other status there,
    [YAJL_OK] or [YAJL_CANCELLED] alike, ends the sequence without an
    error. *)
Theorem normal_return_after_end (f : file) (allow_comments check_utf8 : bool)
  (consumer : Consumer) (fuel : nat)
  (returned : snd (basic_parse buf_size f allow_comments check_utf8
                     consumer fuel) = Exhausted) :
  (exists before result,
     fst (basic_parse buf_size f allow_comments check_utf8 consumer fuel)
     = before ++ [Foreign (Call_parse_complete [] result); Foreign Call_free]
     /\ result <> YAJL_ERROR /\ result <> YAJL_INSUFFICIENT_DATA)
  /\ (forall fuel' consumer' f0 f' handle handle' made result,
        read f0 buf_size = Returns ([], f') ->
        yajl_parse_complete handle = (handle', made, result) ->
        run_callbacks [] made = [] ->
        result <> YAJL_ERROR -> result <> YAJL_INSUFFICIENT_DATA ->
        snd (reader_loop buf_size (S fuel') consumer' f0 handle [])
        = Exhausted).
Proof.
  split.
  - destruct (basic_parse buf_size f allow_comments check_utf8 consumer fuel)
      as [tr out] eqn:Hrun.
    cbn [fst snd] in *. subst out.
    apply basic_parse_inv in Hrun
        as [(_ & _ & Hc)|(cfg & rest & -> & Hrun)]; [discriminate|].
    destruct (loop_returns_after_end _ _ _ _ Hrun) as (before & r & -> & Hr).
    exists (Foreign (Call_alloc cfg) :: before), r. now split.
  - intros fuel' consumer' f0 f' handle handle' made result Hread Hcall Hev
      Herr Hins.
    cbn [reader_loop]. rewrite Hread. cbn [is_empty]. rewrite Hcall, Hev.
    apply Z.eqb_neq in Herr, Hins. now rewrite Herr, Hins.
Qed.
End Lazy.

(** The sample document read in one piece ends normally, after an
    end-of-input call with status [YAJL_OK]. *)
Lemma normal_return_after_end_witness :
  snd (parse_file Inputs.sample false false default_buf_size Drain 3)
  = Exhausted
  /\ exists before,
       fst (parse_file Inputs.sample false false default_buf_size Drain 3)
       = before ++ [Foreign (Call_parse_complete [] YAJL_OK);
                    Foreign Call_free].
Proof.
  assert (H : snd (parse_file Inputs.sample false false default_buf_size
                     Drain 3) = Exhausted) by (vm_compute; reflexivity).
  split; [exact H|].
  destruct (@normal_return_after_end MiniYajl.recogniser PyFile
              default_buf_size Inputs.sample false false Drain 3 H)
    as [(before & result & Htr & _) _].
  exists before.
  assert (Hres : result = YAJL_OK).
  { unfold parse_file in *. revert Htr. vm_compute.
    intros Htr. apply (f_equal (@rev Obs)) in Htr.
    rewrite rev_app_distr in Htr. cbn in Htr. now injection Htr. }
  unfold parse_file. now rewrite Htr, Hres.
Defined.

(** The sample document read one byte at a time by a consumer that
    leaves after three events. *)
Lemma abandoned_run_is_prefix_witness :
  let taken := fst (parse_file Inputs.sample false false 1 (Take 3) 30) in
  let whole := fst (parse_file Inputs.sample false false 1 Drain 30) in
  yielded taken
  = [("start_array"%string, PyNone); ("number"%string, PyInt 1);
     ("string"%string, PyUnicode [120])]
  /\ yielded taken = firstn 3 (yielded whole)
  /\ (List.length (calls taken) < List.length (calls whole))%nat.
Proof.
  intros taken whole.
  destruct (@abandoned_run_is_prefix MiniYajl.recogniser PyFile 1
              Inputs.sample false false 3 30) as [Hy _].
  split; [vm_compute; reflexivity|]. split; [exact Hy|].
  vm_compute. lia.
Defined.

(** ** The bytes that reach the recogniser *)

Lemma fed_app (a b : list Obs) : fed (a ++ b) = fed a ++ fed b.
Proof. unfold fed. now rewrite calls_app, map_app, concat_app. Qed.

Lemma fed_yields (ys : list Event) : fed (map Yield ys) = [].
Proof. unfold fed. now rewrite calls_yields. Qed.

Lemma fed_parse_entry (buffer : bytes) (built : list Event) (result : Z)
  (tr : list Obs) :
  fed (Foreign (parse_entry buffer built result) :: tr) = buffer ++ fed tr.
Proof.
  unfold fed, parse_entry. destruct buffer; reflexivity.
Qed.

Lemma file_read_split (content : bytes) (size : Z) :
  fst (file_read content size) ++ snd (file_read content size) = content.
Proof.
  unfold file_read. destruct (size <? 0); cbn [fst snd].
  - apply app_nil_r.
  - apply firstn_skipn.
Qed.

Lemma file_read_nothing (content : bytes) (size : Z) :
  size <> 0 -> fst (file_read content size) = [] -> content = [].
Proof.
  intros Hsize. unfold file_read.
  destruct (size <? 0) eqn:Hneg; cbn [fst]; [easy|].
  apply Z.ltb_ge in Hneg.
  destruct (Z.to_nat size) as [|n] eqn:Hn; [lia|].
  now destruct content.
Qed.

Section Fed.
Context {Y : Recogniser}.
Variable buf_size : Z.

Lemma loop_feeds_in_order (fuel : nat) :
  forall consumer content handle events tr out,
    reader_loop (F := PyFile) buf_size fuel consumer content handle events
    = (tr, out) ->
    exists unread,
      content = fed tr ++ unread
      /\ (buf_size <> 0 ->
          out = Exhausted \/ out = Raised IncompleteJSONError ->
          unread = []).
Proof.
  induction fuel as [|fuel IH];
    intros consumer content handle events tr out Hrun.
  - injection Hrun as <- <-. exists content. split; [reflexivity|].
    intros _ [H|H]; discriminate.
  - apply reader_loop_inv in Hrun.
    destruct Hrun; subst tr; try subst entry; try subst out;
      change (@read PyFile) with pyfile_read in Hread;
      unfold pyfile_read in Hread; try discriminate;
      injection Hread as Hread;
      pose proof (file_read_split content buf_size) as Hsplit;
      rewrite Hread in Hsplit; cbn [fst snd] in Hsplit.
    + exists f'. rewrite fed_parse_entry. unfold fed. cbn.
      rewrite app_nil_r. split; [now symmetry|].
      intros _ [H|H]; discriminate.
    + exists f'. rewrite fed_parse_entry. split; [now symmetry|].
      intros Hsize _.
      assert (content = []) as ->.
      { apply (file_read_nothing content Hsize). now rewrite Hread. }
      now apply app_eq_nil in Hsplit.
    + exists f'. rewrite fed_parse_entry, fed_app, fed_yields.
      unfold fed at 1. cbn. rewrite app_nil_r. split; [now symmetry|].
      intros _ [H|H]; discriminate.
    + destruct (IH _ _ _ _ _ _ Hrest) as (unread & Hf & Hdone).
      exists unread. rewrite fed_parse_entry, fed_app, fed_yields.
      cbn [app]. split; [|exact Hdone].
      rewrite <- Hsplit, Hf. now rewrite app_assoc.
Qed.

(** X3. Reading an ordinary file, the chunks handed to [yajl_parse]
    during a run, put end to end, are an initial part of the content:
    no byte reaches the recogniser twice, out of order, or not at all
    while a later one does. With a chunk size other than zero, a run
    that returns or raises the premature-end error has handed over the
    whole content. *)
Theorem input_fed_in_order (content : bytes) (allow_comments check_utf8 : bool)
  (consumer : Consumer) (fuel : nat) :
  let run := basic_parse (F := PyFile) buf_size content allow_comments
               check_utf8 consumer fuel in
  exists unread,
    content = fed (fst run) ++ unread
    /\ (buf_size <> 0 ->
        snd run = Exhausted \/ snd run = Raised IncompleteJSONError ->
        unread = []).
Proof.
  intros run. subst run.
  destruct (basic_parse (F := PyFile) buf_size content allow_comments
              check_utf8 consumer fuel) as [tr out] eqn:Hrun.
  apply basic_parse_inv in Hrun
      as [(_ & -> & ->)|(cfg & rest & -> & Hrun)]; cbn [fst snd].
  - exists content. split; [reflexivity|]. intros _ [H|H]; discriminate.
  - destruct (loop_feeds_in_order _ _ _ _ _ Hrun) as (unread & Hf & Hdone).
    exists unread. split; [|exact Hdone]. exact Hf.
Qed.
End Fed.

(** The truncated document [{"a":] read two bytes at a time: the run
    raises the premature-end error after the five bytes were fed. *)
Lemma input_fed_in_order_witness :
  let run := parse_file Inputs.truncated false false 2 Drain 10 in
  snd run = Raised IncompleteJSONError /\ fed (fst run) = Inputs.truncated.
Proof.
  intros run.
  assert (Hout : snd run = Raised IncompleteJSONError)
    by (vm_compute; reflexivity).
  split; [exact Hout|].
  destruct (@input_fed_in_order MiniYajl.recogniser 2 Inputs.truncated
              false false Drain 10) as (unread & Hf & Hdone).
  fold (parse_file Inputs.truncated false false 2 Drain 10) in Hf, Hdone.
  fold run in Hf, Hdone.
  rewrite (Hdone ltac:(discriminate) (or_intror Hout)), app_nil_r in Hf.
  now symmetry.
Defined.

(** ** Chunk sizes at the edges *)

Lemma reads_zero (n : nat) (content : bytes) :
  reads (F := PyFile) n content 0 = repeat (Returns []) n.
Proof.
  induction n as [|n IH]; [reflexivity|].
  cbn [reads]. change (@read PyFile) with pyfile_read. unfold pyfile_read.
  unfold file_read. cbn [Z.ltb Z.compare Z.to_nat firstn skipn repeat].
  now rewrite IH.
Qed.

(** X4. With [buf_size = 0] every [read] returns the empty string, which
    the loop takes for the end of the input: whatever the file
    contains, the run is the run on the empty file, and no byte is
    handed to the recogniser. *)
Theorem zero_buf_size_ignores_content {Y : Recogniser} (content : bytes)
  (allow_comments check_utf8 : bool) (consumer : Consumer) (fuel : nat) :
  basic_parse (F := PyFile) 0 content allow_comments check_utf8 consumer fuel
  = basic_parse (F := PyFile) 0 [] allow_comments check_utf8 consumer fuel
  /\ fed (fst (basic_parse (F := PyFile) 0 content allow_comments check_utf8
                 consumer fuel)) = [].
Proof.
  assert (Hsame :
    basic_parse (F := PyFile) 0 content allow_comments check_utf8 consumer fuel
    = basic_parse (F := PyFile) 0 [] allow_comments check_utf8 consumer fuel).
  { unfold basic_parse.
    rewrite (@loop_same_reads Y PyFile PyFile 0 fuel consumer content []);
      [reflexivity|].
    intros n. now rewrite !reads_zero. }
  split; [exact Hsame|]. rewrite Hsame.
  destruct (basic_parse (F := PyFile) 0 [] allow_comments check_utf8
              consumer fuel) as [tr out] eqn:Hrun.
  apply basic_parse_inv in Hrun
      as [(_ & -> & _)|(cfg & rest & -> & Hrun)]; [reflexivity|].
  destruct (@loop_feeds_in_order Y 0 fuel consumer [] (yajl_alloc cfg) []
              rest out Hrun) as (unread & Hf & _).
  symmetry in Hf. apply app_eq_nil in Hf as [Hf _]. exact Hf.
Qed.

(** X5. A negative [buf_size] makes the first [read] return the whole
    file; the run is then exactly the run with any chunk size that is
    at least the length of the file. *)
Theorem negative_buf_size_reads_all {Y : Recogniser} (content : bytes)
  (allow_comments check_utf8 : bool) (consumer : Consumer) (fuel : nat)
  (whole large : Z)
  (negative : whole < 0)
  (covers : Z.of_nat (List.length content) <= large) :
  basic_parse (F := PyFile) whole content allow_comments check_utf8
    consumer fuel
  = basic_parse (F := PyFile) large content allow_comments check_utf8
      consumer fuel.
Proof.
  unfold basic_parse.
  set (config := {| allowComments := Z.b2z allow_comments;
                    checkUTF8 := Z.b2z check_utf8 |}).
  assert (Hloop :
    reader_loop (F := PyFile) whole fuel consumer content (yajl_alloc config) []
    = reader_loop (F := PyFile) large fuel consumer content
        (yajl_alloc config) []).
  { destruct fuel as [|fuel]; [reflexivity|].
    cbn [reader_loop]. change (@read PyFile) with pyfile_read.
    unfold pyfile_read, file_read.
    apply Z.ltb_lt in negative. rewrite negative.
    assert (Hl : (large <? 0) = false) by (apply Z.ltb_ge; lia).
    rewrite Hl, firstn_all2, skipn_all2 by lia.
    destruct (if is_empty content then yajl_parse_complete (yajl_alloc config)
              else yajl_parse (yajl_alloc config) content)
      as [[handle' made] result].
    destruct (result =? YAJL_ERROR); [reflexivity|].
    destruct (is_empty content && is_empty (run_callbacks [] made));
      [reflexivity|].
    destruct (for_yield consumer (run_callbacks [] made))
      as [ys [consumer'|]]; [|reflexivity].
    now rewrite (exhausted_any_size whole large). }
  now rewrite Hloop.
Qed.

(** The sample document with [buf_size = -1] and with the default. *)
Lemma negative_buf_size_reads_all_witness :
  parse_file Inputs.sample false false (-1) Drain 5
  = parse_file Inputs.sample false false default_buf_size Drain 5
  /\ List.length
       (yielded (fst (parse_file Inputs.sample false false (-1) Drain 5)))
     = 8%nat.
Proof.
  split.
  - exact (@negative_buf_size_reads_all MiniYajl.recogniser Inputs.sample
             false false Drain 5 (-1) default_buf_size
             ltac:(reflexivity) ltac:(vm_compute; discriminate)).
  - vm_compute. reflexivity.
Defined.

(** ** Termination *)

Section Finite.
Context {Y : Recogniser} `{!Quiet Y}.
Variable size : Z.
Hypothesis positive : 0 < size.

Lemma exhausted_ends_any (consumer : Consumer) (handle : yajl_handle)
  (events : list Event) :
  snd (reader_loop (F := PyFile) size 2 consumer [] handle events) <> Running.
Proof.
  cbn [reader_loop]. change (@read PyFile) with pyfile_read.
  unfold pyfile_read. rewrite !file_read_empty. cbn [is_empty].
  destruct (yajl_parse_complete handle) as [[h1 made1] r1] eqn:H1.
  destruct (r1 =? YAJL_ERROR); [discriminate|].
  destruct (true && is_empty (run_callbacks events made1)).
  { destruct (r1 =? YAJL_INSUFFICIENT_DATA); discriminate. }
  destruct (for_yield consumer (run_callbacks events made1))
    as [ys [consumer'|]]; [|discriminate].
  destruct (complete_twice _ H1) as (h2 & r2 & ->).
  cbn [run_callbacks fold_left is_empty andb].
  destruct (r2 =? YAJL_ERROR); [discriminate|].
  destruct (r2 =? YAJL_INSUFFICIENT_DATA); discriminate.
Qed.

Lemma loop_ends (len : nat) :
  forall consumer content handle events,
    (List.length content <= len)%nat ->
    snd (reader_loop (F := PyFile) size (len + 2) consumer content handle
           events) <> Running.
Proof.
  induction len as [|len IH]; intros consumer content handle events Hlen.
  - destruct content; [|simpl in Hlen; lia]. apply exhausted_ends_any.
  - destruct content as [|b0 content'].
    { pose proof (exhausted_ends_any consumer handle events) as H.
      destruct (reader_loop (F := PyFile) size 2 consumer [] handle events)
        as [tr out] eqn:E. cbn [snd] in H.
      now rewrite (@reader_loop_enough Y PyFile size 2%nat (S len + 2)%nat
                     consumer [] handle events tr out E H ltac:(lia)). }
    set (content := b0 :: content') in *.
    destruct (@file_read_chunk content size positive ltac:(discriminate))
      as (piece & rest & Hread & Hpiece & _ & Hshorter).
    cbn [Nat.add reader_loop]. change (@read PyFile) with pyfile_read.
    unfold pyfile_read. rewrite Hread.
    destruct (if is_empty piece then yajl_parse_complete handle
              else yajl_parse handle piece) as [[handle' made] result].
    destruct (result =? YAJL_ERROR); [discriminate|].
    assert (is_empty piece = false) as -> by now destruct piece.
    cbn [andb].
    destruct (for_yield consumer (run_callbacks events made))
      as [ys [consumer'|]]; [|discriminate].
    specialize (IH consumer' rest handle' [] ltac:(lia)).
    destruct (reader_loop (F := PyFile) size (len + 2) consumer' rest
                handle' []) as [tr out].
    exact IH.
Qed.

(** X6. The sequence is finite: reading an ordinary file with a positive
    chunk size, against a recogniser whose end-of-input call makes
    callbacks at most once, every run ends (by returning, raising, or
    being closed) within one iteration of the loop per byte of the file
    and two more, whatever the consumer does. *)
Theorem run_ends (content : bytes) (allow_comments check_utf8 : bool)
  (consumer : Consumer) (fuel : nat)
  (enough : (List.length content + 2 <= fuel)%nat) :
  snd (basic_parse (F := PyFile) size content allow_comments check_utf8
         consumer fuel) <> Running.
Proof.
  unfold basic_parse.
  set (config := {| allowComments := Z.b2z allow_comments;
                    checkUTF8 := Z.b2z check_utf8 |}).
  pose proof (@loop_ends (List.length content) consumer content
                (yajl_alloc config) [] (le_n _)) as H.
  destruct (reader_loop (F := PyFile) size (List.length content + 2) consumer
              content (yajl_alloc config) []) as [tr out] eqn:E.
  cbn [snd] in H.
  rewrite (@reader_loop_enough Y PyFile size (List.length content + 2)%nat
             fuel consumer content (yajl_alloc config) [] tr out E H enough).
  now destruct consumer as [|[|n]].
Qed.
End Finite.

(** The sample document, 21 bytes, read five bytes at a time by a
    consumer that leaves after two events, with fuel for 23
    iterations. *)
Lemma run_ends_witness :
  snd (parse_file Inputs.sample false false 5 (Take 2) 23) <> Running
  /\ snd (parse_file Inputs.sample false false 5 (Take 2) 23) = Closed.
Proof.
  split.
  - exact (@run_ends MiniYajl.recogniser MiniYajlFacts.quiet 5
             ltac:(reflexivity) Inputs.sample false false (Take 2) 23
             ltac:(vm_compute; lia)).
  - vm_compute. reflexivity.
Defined.

(** ** What a malformed input costs *)

Section Lost.
Context {Y : Recogniser} {F : FileLike}.
Variable buf_size : Z.

Lemma loop_loses_one_call (fuel : nat) :
  forall f handle tr out c,
    reader_loop buf_size fuel Drain f handle [] = (tr, out) ->
    In c (calls tr) -> status_of c = Some YAJL_ERROR ->
    constructed tr = yielded tr ++ built_by c.
Proof.
  induction fuel as [|fuel IH]; intros f handle tr out c Hrun Hin Hs.
  - injection Hrun as <- <-. contradiction.
  - apply reader_loop_inv in Hrun.
    destruct Hrun; subst tr; try subst entry; try subst out.
    + simpl in Hin. destruct Hin as [<-|[]]. discriminate.
    + simpl in Hin.
      destruct Hin as [<-|[<-|[<-|[<-|[]]]]]; try discriminate.
      unfold constructed. cbn. now rewrite !app_nil_r.
    + exfalso. simpl in Hin. destruct Hin as [H|[<-|[]]]; [|discriminate].
      now apply (status_error_entry _ _ Hresult Hs) in H.
    + exfalso. cbn in Hfor. discriminate.
    + simpl in Hin. rewrite calls_app, calls_yields in Hin.
      destruct Hin as [H|Hin];
        [now apply (status_error_entry _ _ Hresult Hs) in H|].
      cbn in Hfor. injection Hfor as <- <-.
      destruct (parse_entry_spec buffer (run_callbacks [] made) result)
        as (Hb & Hst & _).
      destruct (@constructed_ok_cons_parse _
                  (map Yield (run_callbacks [] made) ++ rest) _ _
                  Hb Hst Hresult) as [_ ->].
      destruct (constructed_ok_yields (run_callbacks [] made) rest)
        as [_ ->].
      cbn [yielded]. rewrite yielded_app, yielded_yields.
      rewrite (@IH f' handle' rest out c Hrest Hin Hs). now rewrite app_assoc.
Qed.

(** X7. When a parse call returns [YAJL_ERROR], a consumer that
    iterates to the end has received, before the malformed-input error,
    every event that the callbacks built during the earlier calls, in
    order; what it has not received is exactly the events built during
    the rejected call. *)
Theorem malformed_loses_one_call (f : file) (allow_comments check_utf8 : bool)
  (fuel : nat) (c : FCall)
  (made : In c (calls (fst (basic_parse buf_size f allow_comments check_utf8
                              Drain fuel))))
  (rejected : status_of c = Some YAJL_ERROR) :
  constructed (fst (basic_parse buf_size f allow_comments check_utf8
                      Drain fuel))
  = yielded (fst (basic_parse buf_size f allow_comments check_utf8
                    Drain fuel))
    ++ built_by c.
Proof.
  destruct (basic_parse buf_size f allow_comments check_utf8 Drain fuel)
    as [tr out] eqn:Hrun.
  apply basic_parse_inv in Hrun
      as [(Hc & _)|(cfg & rest & -> & Hrun)]; [discriminate|].
  cbn [fst calls] in *. destruct made as [<-|Hin]; [discriminate|].
  change (constructed (Foreign (Call_alloc cfg) :: rest))
    with (constructed rest).
  cbn [yielded].
  exact (@loop_loses_one_call fuel f (yajl_alloc cfg) rest out c Hrun Hin
           rejected).
Qed.
End Lost.

(** The input [[1,}] read two bytes at a time: the first chunk gives
    one event, the second builds one more and is rejected. *)
Lemma malformed_loses_one_call_witness :
  let run := parse_file Inputs.late_error false false 2 Drain 5 in
  yielded (fst run) = [("start_array"%string, PyNone)]
  /\ constructed (fst run)
     = yielded (fst run) ++ [("number"%string, PyInt 1)].
Proof.
  intros run. split; [vm_compute; reflexivity|].
  exact (@malformed_loses_one_call MiniYajl.recogniser PyFile 2
           Inputs.late_error false false 5
           (Call_parse [x2c; x7d] [("number"%string, PyInt 1)] YAJL_ERROR)
           ltac:(vm_compute; right; right; left; reflexivity)
           ltac:(reflexivity)).
Defined.

(** ** The table of callbacks *)

(** X8. The order of [_callback_data] is the order of the fields of
    YAJL's callback structure: the closure YAJL reaches through the
    field for a token kind appends an event that carries the name of
    that kind, or (when its converter raises) appends nothing. *)
Theorem event_named_after_field (field : yajl_callback) (args : list cval)
  (events : list Event) :
  invoke events (field, args) = events
  \/ exists value,
       invoke events (field, args) = events ++ [(field_name field, value)].
Proof.
  unfold invoke.
  destruct field;
    cbn [fst snd field_index nth_error Callbacks map _callback_data callback
         pyfunc field_name];
    unfold c_callback;
    match goal with
    | |- context [match ?conv args with _ => _ end] => destruct (conv args)
    end; eauto.
Qed.

Lemma number_outcomes (value : bytes) :
  (exists n, number value = Returns (PyInt n))
  \/ (exists d, number value = Returns (PyDecimal d))
  \/ (number value = Raises InvalidOperation
      /\ py_int value = Raises ValueError
      /\ py_Decimal value = Raises InvalidOperation).
Proof.
  unfold number.
  assert (Hint : (exists n, py_int value = Returns n)
                 \/ py_int value = Raises ValueError).
  { unfold py_int.
    destruct (match strip value with
              | x2d :: ds0 => option_map Z.opp (unsigned_int ds0)
              | x2b :: ds0 => unsigned_int ds0
              | _ => unsigned_int (strip value)
              end); eauto. }
  assert (Hdec : (exists d, py_Decimal value = Returns d)
                 \/ py_Decimal value = Raises InvalidOperation).
  { unfold py_Decimal.
    destruct (match strip value with
              | x2d :: r => (true, r)
              | x2b :: r => (false, r)
              | _ => (false, strip value)
              end) as [negative rest].
    destruct (finite_decimal negative rest); [eauto|].
    destruct (special_decimal negative rest); eauto. }
  destruct Hint as [(n & ->) | ->]; [eauto|].
  destruct Hdec as [(d & ->) | ->]; eauto.
Qed.

(** X9. [number] returns an [int] or a [Decimal]. The [ValueError] of
    [int] never leaves it: when it raises, both parses have failed and
    the exception is the [InvalidOperation] of [Decimal]. *)
Theorem number_raises_invalid_operation (value : bytes) :
  (forall v, number value = Returns v ->
             (exists n, v = PyInt n) \/ (exists d, v = PyDecimal d))
  /\ (forall x, number value = Raises x ->
                x = InvalidOperation
                /\ py_int value = Raises ValueError
                /\ py_Decimal value = Raises InvalidOperation).
Proof.
  destruct (number_outcomes value) as [(n & H)|[(d & H)|(H & Hi & Hd)]];
    rewrite H; split; intros r [= <-]; eauto.
Qed.

(** The empty lexeme and the lexeme [1e]. *)
Lemma number_raises_invalid_operation_witness :
  number [] = Raises InvalidOperation
  /\ number [x31; x65] = Raises InvalidOperation
  /\ py_int [x31; x65] = Raises ValueError.
Proof.
  split; [reflexivity|].
  destruct (proj2 (number_raises_invalid_operation [x31; x65])
              InvalidOperation eq_refl) as (_ & Hi & _).
  split; [reflexivity|exact Hi].
Defined.

(** X10. Called with the arguments of their prototype, the callbacks for
    'integer' ([C_LONG]) and 'double' ([C_DOUBLE]) always raise
    [TypeError], because their converters take two arguments and the
    prototypes pass one; no other entry of the table raises
    [TypeError]. So the two entries never produce an event. *)
Theorem integer_double_entries_dead (name : string) (ty : cfunctype)
  (func : converter) (args : list cval)
  (entry : In (name, ty, func) _callback_data)
  (typed : prototype_args ty args = true) :
  func args = Raises TypeError <-> (ty = C_LONG \/ ty = C_DOUBLE).
Proof.
  unfold _callback_data in entry. cbn [In] in entry.
  repeat (destruct entry as [[= <- <- <-]|entry]);
    try contradiction;
    destruct args as [|[n|bits|mem] [|[l|bits'|mem'] [|? ?]]];
    try discriminate typed;
    cbn [lambda0 lambda1 lambda2 bind string_at].
  all: try (split; [discriminate|intros [H|H]; discriminate]).
  all: try (split; [reflexivity|]; intros _; reflexivity).
  all: try (split; [intros _; auto|reflexivity]).
  - destruct (number_outcomes (firstn (Z.to_nat l) mem))
      as [(k & ->)|[(d & ->)|(-> & _)]];
      (split; [discriminate|intros [H|H]; discriminate]).
  - unfold decode_utf8. destruct (utf8_decode (firstn (Z.to_nat l) mem));
      (split; [discriminate|intros [H|H]; discriminate]).
Qed.

Lemma integer_double_entries_dead_witness :
  convert "integer" [CInt 7] = Raises TypeError
  /\ convert "double" [CDouble 0] = Raises TypeError
  /\ invoke [] (yajl_integer, [CInt 7]) = []
  /\ convert "boolean" [CInt 7] = Returns (PyBool true).
Proof.
  split.
  - refine (proj2 (@integer_double_entries_dead "integer" C_LONG _ [CInt 7]
                     _ eq_refl) (or_introl eq_refl)).
    cbn. right. right. left. reflexivity.
  - repeat split.
Defined.

(** ** Strings *)

Lemma utf8_decode_ascii (s : bytes) :
  ascii s = true -> utf8_decode s = Some (map ord s).
Proof.
  induction s as [|b s IH]; [reflexivity|].
  unfold ascii in *. cbn [forallb map utf8_decode].
  intros H. apply andb_true_iff in H as [Hb Hs].
  rewrite Hb, (IH Hs). reflexivity.
Qed.

(** X11. On a payload of ASCII bytes the 'string' converter cannot
    fail, and the text it returns has for code points the bytes of the
    payload, in order; the 'map_key' converter returns the same bytes
    undecoded. *)
Theorem ascii_string_unchanged (payload : bytes) (plain : ascii payload = true)
  (events : list Event) :
  convert "string" (str_args payload) = Returns (PyUnicode (map ord payload))
  /\ invoke events (yajl_string, str_args payload)
     = events ++ [("string"%string, PyUnicode (map ord payload))]
  /\ invoke events (yajl_map_key, str_args payload)
     = events ++ [("map_key"%string, PyStr payload)].
Proof.
  rewrite convert_string, invoke_string, invoke_map_key.
  unfold decode_utf8. now rewrite (utf8_decode_ascii payload plain).
Qed.

Lemma ascii_string_unchanged_witness :
  ascii [x6b; x65; x79] = true
  /\ convert "string" (str_args [x6b; x65; x79])
     = Returns (PyUnicode [107; 101; 121]).
Proof.
  split; [reflexivity|].
  exact (proj1 (@ascii_string_unchanged [x6b; x65; x79] eq_refl [])).
Defined.

(** ** Decimal literals *)

Lemma digit_of_point : digit_of x2e = None.
Proof. reflexivity. Qed.

Lemma digits_value_point (ds : list nat) (r : bytes) :
  Forall (fun d => (d <= 9)%nat) ds ->
  forall acc, digits_value acc (map digit_byte ds ++ x2e :: r) = None.
Proof.
  induction 1 as [|d ds Hd _ IH]; intros acc; cbn [map app digits_value].
  - now rewrite digit_of_point.
  - destruct (digit_byte_spec Hd) as [-> _]. apply IH.
Qed.

Lemma unsigned_int_point (ds : list nat) (r : bytes) :
  Forall (fun d => (d <= 9)%nat) ds ->
  unsigned_int (map digit_byte ds ++ x2e :: r) = None.
Proof.
  intros Hds. destruct ds as [|d ds].
  - cbn [map app unsigned_int digits_value]. now rewrite digit_of_point.
  - change (unsigned_int (map digit_byte (d :: ds) ++ x2e :: r))
      with (digits_value 0 (map digit_byte (d :: ds) ++ x2e :: r)).
    now apply digits_value_point.
Qed.

Lemma span_digits_literal (ds : list nat) (r : bytes) :
  Forall (fun d => (d <= 9)%nat) ds ->
  match r with [] => True | b :: _ => digit_of b = None end ->
  span_digits (map digit_byte ds ++ r) = (map digit_byte ds, r).
Proof.
  intros Hds Hr. induction Hds as [|d ds Hd _ IH]; cbn [map app span_digits].
  - destruct r as [|b r]; [reflexivity|]. cbn [span_digits]. now rewrite Hr.
  - destruct (digit_byte_spec Hd) as [-> _]. now rewrite IH.
Qed.

Lemma strip_frac_literal (negative : bool) (ip fp : list nat) :
  ip <> [] -> fp <> [] ->
  Forall (fun d => (d <= 9)%nat) ip -> Forall (fun d => (d <= 9)%nat) fp ->
  strip (frac_literal negative ip fp) = frac_literal negative ip fp.
Proof.
  intros Hip Hfp Hdi Hdf.
  destruct (literal_last Hfp Hdf
              ((if negative then [x2d] else []) ++ map digit_byte ip ++ [x2e]))
    as (last & Hlast & Hsp).
  assert (Hshape :
    ((if negative then [x2d] else []) ++ map digit_byte ip ++ [x2e])
    ++ map digit_byte fp = frac_literal negative ip fp).
  { unfold frac_literal. now rewrite <- !app_assoc. }
  rewrite Hshape in Hlast.
  destruct negative.
  - apply (@strip_clean _ x2d last); try reflexivity; assumption.
  - destruct ip as [|d ip0]; [contradiction|].
    pose proof (Forall_inv Hdi) as Hd. cbv beta in Hd.
    destruct (digit_byte_spec Hd) as (_ & Hs & _).
    apply (@strip_clean _ (digit_byte d) last);
      try reflexivity; assumption.
Qed.

(** X12. A decimal literal with a fraction (optional minus, digits, a
    point, digits) is not an integer for [int], so [number] returns the
    [Decimal] built from it, and that [Decimal] keeps every digit: its
    coefficient is the number written by all the digits, its exponent
    is minus the number of digits after the point, so trailing zeros
    are kept. *)
Theorem number_fraction_exact (negative : bool) (ip fp : list nat)
  (int_part : ip <> []) (frac_part : fp <> [])
  (int_digits : Forall (fun d => (d <= 9)%nat) ip)
  (frac_digits : Forall (fun d => (d <= 9)%nat) fp) :
  py_int (frac_literal negative ip fp) = Raises ValueError
  /\ number (frac_literal negative ip fp)
     = Returns (PyDecimal (DecFinite negative (positional (ip ++ fp))
                             (- Z.of_nat (List.length fp)))).
Proof.
  pose proof (strip_frac_literal negative int_part frac_part int_digits
                frac_digits) as Hstrip.
  pose proof (unsigned_int_point (map digit_byte fp) int_digits) as Hu.
  assert (Hint : py_int (frac_literal negative ip fp) = Raises ValueError).
  { unfold py_int. rewrite Hstrip. unfold frac_literal.
    destruct negative; cbn [app].
    - now rewrite Hu.
    - destruct ip as [|d ip0]; [contradiction|].
      pose proof (Forall_inv int_digits) as Hd. cbv beta in Hd.
      destruct (digit_byte_spec Hd) as (_ & _ & Hm & Hp).
      cbn [map app] in *. destruct (digit_byte d); try congruence;
        now rewrite Hu. }
  split; [exact Hint|].
  unfold number. rewrite Hint. unfold py_Decimal. rewrite Hstrip.
  assert (Hfin :
    finite_decimal negative (map digit_byte ip ++ x2e :: map digit_byte fp)
    = Some (DecFinite negative (positional (ip ++ fp))
              (- Z.of_nat (List.length fp)))).
  { unfold finite_decimal.
    rewrite (span_digits_literal (x2e :: map digit_byte fp) int_digits)
      by exact digit_of_point.
    rewrite <- (app_nil_r (map digit_byte fp)) at 1.
    rewrite (span_digits_literal [] frac_digits) by exact I.
    rewrite <- map_app.
    assert (Hall : Forall (fun d => (d <= 9)%nat) (ip ++ fp))
      by (apply Forall_app; now split).
    pose proof (digits_value_literal Hall 0) as Hv.
    destruct ip as [|d ip0]; [contradiction|].
    cbn [app map] in *. rewrite Hv. cbn [exponent_part].
    rewrite length_map. do 2 f_equal; lia. }
  unfold frac_literal.
  destruct negative; cbn [app].
  - now rewrite Hfin.
  - destruct ip as [|d ip0]; [contradiction|].
    pose proof (Forall_inv int_digits) as Hd. cbv beta in Hd.
    destruct (digit_byte_spec Hd) as (_ & _ & Hm & Hp).
    cbn [map app] in *. destruct (digit_byte d); try congruence;
      now rewrite Hfin.
Qed.

(** The literals [1.50] and [-0.25]. *)
Lemma number_fraction_exact_witness :
  number [x31; x2e; x35; x30]
  = Returns (PyDecimal (DecFinite false 150 (-2)))
  /\ number [x2d; x30; x2e; x32; x35]
     = Returns (PyDecimal (DecFinite true 25 (-2))).
Proof.
  split.
  - exact (proj2 (@number_fraction_exact false [1]%nat [5; 0]%nat
                    ltac:(discriminate) ltac:(discriminate)
                    ltac:(repeat constructor; lia)
                    ltac:(repeat constructor; lia))).
  - exact (proj2 (@number_fraction_exact true [0]%nat [2; 5]%nat
                    ltac:(discriminate) ltac:(discriminate)
                    ltac:(repeat constructor; lia)
                    ltac:(repeat constructor; lia))).
Defined.

(** ** The events of the docstring *)

Lemma invoke_documented (call : Invocation) :
  typed_call call = true -> forallb documented (invoke [] call) = true.
Proof.
  destruct call as [field args]. unfold typed_call, invoke.
  destruct field;
    cbn [fst snd field_index nth_error Callbacks map _callback_data callback
         pyfunc];
    intros Htyped;
    destruct args as [|[n|bits|mem] [|[l|bits'|mem'] [|? ?]]];
    try discriminate Htyped;
    unfold c_callback; cbn [lambda0 lambda1 lambda2 bind string_at app];
    try reflexivity.
  - destruct (number_outcomes (firstn (Z.to_nat l) mem))
      as [(k & ->)|[(d & ->)|(-> & _)]]; reflexivity.
  - unfold decode_utf8.
    destruct (utf8_decode (firstn (Z.to_nat l) mem)); reflexivity.
Qed.

Lemma run_callbacks_documented (made : list Invocation) :
  forallb typed_call made = true ->
  forallb documented (run_callbacks [] made) = true.
Proof.
  induction made as [|call made IH]; [reflexivity|].
  cbn [forallb]. intros H. apply andb_true_iff in H as [Hc Hm].
  unfold run_callbacks. cbn [fold_left].
  fold (run_callbacks (invoke [] call) made).
  rewrite run_callbacks_appends, forallb_app.
  now rewrite (invoke_documented call Hc), (IH Hm).
Qed.

Section Documented.
Context {Y : Recogniser} {F : FileLike} `{!Typed Y}.
Variable buf_size : Z.

Lemma call_typed (handle : yajl_handle) (buffer : bytes) :
  forallb typed_call
    (snd (fst (if is_empty buffer then yajl_parse_complete handle
               else yajl_parse handle buffer))) = true.
Proof.
  destruct (is_empty buffer); [apply complete_typed|apply parse_typed].
Qed.

Lemma loop_documented (fuel : nat) :
  forall consumer f handle tr out,
    reader_loop buf_size fuel consumer f handle [] = (tr, out) ->
    forallb documented (yielded tr) = true.
Proof.
  induction fuel as [|fuel IH]; intros consumer f handle tr out Hrun.
  - now injection Hrun as <- <-.
  - apply reader_loop_inv in Hrun.
    destruct Hrun; subst tr; try subst entry; try subst out;
      try reflexivity.
    all: pose proof (call_typed handle buffer) as Hty;
      rewrite Hcall in Hty; cbn [fst snd] in Hty;
      apply run_callbacks_documented in Hty;
      destruct (for_yield_spec _ _ Hfor) as (later & Hev & _);
      rewrite Hev, forallb_app in Hty;
      apply andb_true_iff in Hty as [Hys _];
      cbn [yielded]; rewrite yielded_app, yielded_yields, forallb_app, Hys.
    + reflexivity.
    + exact (IH _ _ _ _ _ Hrest).
Qed.

(** X13. Against a recogniser that calls every callback with the
    arguments of its prototype, every event a run yields is one of the
    pairs the docstring of [basic_parse] lists: [None] with 'null' and
    the four structural names, a boolean with 'boolean', an [int] or a
    [Decimal] with 'number', text with 'string', a byte string with
    'map_key'. No 'integer' or 'double' event is ever yielded. *)
Theorem yielded_events_documented (f : file) (allow_comments check_utf8 : bool)
  (consumer : Consumer) (fuel : nat) :
  forallb documented
    (yielded (fst (basic_parse buf_size f allow_comments check_utf8
                     consumer fuel))) = true.
Proof.
  destruct (basic_parse buf_size f allow_comments check_utf8 consumer fuel)
    as [tr out] eqn:Hrun.
  apply basic_parse_inv in Hrun
      as [(_ & -> & _)|(cfg & rest & -> & Hrun)]; [reflexivity|].
  cbn [fst yielded]. exact (loop_documented _ _ _ _ Hrun).
Qed.
End Documented.

Module MiniYajlTyped.
Import MiniYajl.

Lemma parse_tok_typed (stack : list pstate) (t : tok) :
  forallb typed_call (snd (fst (parse_tok stack t))) = true.
Proof.
  destruct stack as [|s below]; [reflexivity|].
  destruct s, t; reflexivity.
Qed.

Lemma parse_toks_typed (ts : list tok) :
  forall stack, forallb typed_call (snd (fst (parse_toks stack ts))) = true.
Proof.
  induction ts as [|t ts IH]; intros stack; [reflexivity|].
  cbn [parse_toks]. pose proof (parse_tok_typed stack t) as Ht.
  destruct (parse_tok stack t) as [[stack' made] [msg|]]; cbn [fst snd] in *;
    [exact Ht|].
  specialize (IH stack').
  destruct (parse_toks stack' ts) as [[stack'' made'] e]. cbn [fst snd] in *.
  now rewrite forallb_app, Ht, IH.
Qed.

Lemma step_byte_typed (h : handle) (b : byte) :
  forallb typed_call (snd (step_byte h b)) = true.
Proof.
  unfold step_byte. destruct (failed h || complete h); [reflexivity|].
  destruct (lex_byte (config h) (lexer h) b) as [[ts lx] lexical].
  pose proof (parse_toks_typed ts (stateStack h)) as Ht.
  destruct (parse_toks (stateStack h) ts) as [[stack made] [msg|]];
    cbn [fst snd] in *; [exact Ht|].
  destruct lexical; exact Ht.
Qed.

Lemma feed_typed (buffer : bytes) :
  forall h, forallb typed_call (snd (feed h buffer)) = true.
Proof.
  induction buffer as [|b buffer IH]; intros h; [reflexivity|].
  cbn [feed]. pose proof (step_byte_typed h b) as Hs.
  destruct (step_byte h b) as [h' made]. specialize (IH h').
  destruct (feed h' buffer) as [h'' made']. cbn [fst snd] in *.
  now rewrite forallb_app, Hs, IH.
Qed.

#[export] Instance typed : Typed recogniser.
Proof.
  constructor; cbn [yajl_parse yajl_parse_complete recogniser yajl_handle].
  - intros h buffer. unfold parse. pose proof (feed_typed buffer h) as H.
    now destruct (feed h buffer).
  - intros h. unfold parse. pose proof (feed_typed [x20] h) as H.
    now destruct (feed h [x20]).
Qed.
End MiniYajlTyped.

(** The events of the sample document. *)
Lemma yielded_events_documented_witness :
  forallb documented
    (yielded (fst (parse_file Inputs.sample false false 3 Drain 12))) = true
  /\ List.length
       (yielded (fst (parse_file Inputs.sample false false 3 Drain 12)))
     = 8%nat.
Proof.
  split.
  - exact (@yielded_events_documented MiniYajl.recogniser PyFile
             MiniYajlTyped.typed 3 Inputs.sample false false Drain 12).
  - vm_compute. reflexivity.
Defined.

(** ** End-of-input calls *)



Section Completes.
Context {Y : Recogniser} `{!Quiet Y}.
Variable size : Z.




End Completes.

